(** * logger-server: admission control and the bounded log store

    A shallow embedding of the Go packages [log_levels], [utils],
    [ratelimit] and [logger] (the SQLite store), of the validation of an
    entry, the check of the API key and the handler that reads the
    logs, with the properties of the specification and further
    properties of the code stated over it.

    Conventions.
    - A Go [int] (64 bits on the supported targets) and a
      [time.Duration] are integers of [Z]; where the source computes
      with them the wrap-around [wrap64] is written out.
    - A [time.Time] is an instant counted in nanoseconds from the zero
      time, so [IsZero t] is [t = 0]; [time.Now()] is an input of every
      operation that reads the clock.
    - A mutex-protected method is one atomic state transformer. *)

From stdpp Require Import gmap strings list fin_maps sorting.
From Stdlib Require Import ZArith Lia String Ascii List Sorting.Permutation Sorting.Sorted.
From Stdlib Require Import Floats.SpecFloat.

Open Scope string_scope.
Open Scope list_scope.
Open Scope Z_scope.

(** ** Go integers, durations and instants *)

Module Go.

Definition MinInt64 : Z := - 2 ^ 63.
Definition MaxInt64 : Z := 2 ^ 63 - 1.

(** Two's-complement wrap-around of 64-bit signed arithmetic. *)
Definition wrap64 (z : Z) : Z := (z + 2 ^ 63) mod 2 ^ 64 - 2 ^ 63.

Definition in_int64 (z : Z) : Prop := MinInt64 <= z <= MaxInt64.

(** [time.Duration] constants, in nanoseconds. *)
Definition Millisecond : Z := 1000000.
Definition Second : Z := 1000000000.
Definition Minute : Z := 60 * Second.

(** [t.Sub(u)]: the duration [t - u], saturated at the largest and
    smallest [Duration]. *)
Definition Sub (t u : Z) : Z :=
  let d := t - u in
  if d <? MinInt64 then MinInt64
  else if MaxInt64 <? d then MaxInt64
  else d.

(** [t.Before(u)] and [t.IsZero()]. *)
Definition Before (t u : Z) : bool := t <? u.
Definition IsZero (t : Z) : bool := t =? 0.

(** Results of fallible functions: the value, or the [error]'s text. *)
Inductive result (A : Type) : Type :=
| Ok (a : A)
| Err (msg : string).
Arguments Ok {A} a.
Arguments Err {A} msg.

Definition is_Err {A} (r : result A) : bool :=
  match r with Err _ => true | Ok _ => false end.

(** *** float64

    IEEE 754 binary64 values and operations, as specified by
    [SpecFloat] (53 bits of precision, exponent bound 1024). *)

Definition float64 := spec_float.

(** [float64(z)] for an integer [z]: the nearest binary64 value. *)
Definition float64_of_int (z : Z) : float64 := binary_normalize 53 1024 z 0 false.

(** [int(f)]: the fraction is discarded (truncation toward zero).  For a
    value outside the range of [int], which no caller below produces,
    the amd64 result is the smallest [int]. *)
Definition int_of_float64 (f : float64) : Z :=
  match f with
  | S754_zero _ => 0
  | S754_finite s m e =>
      let a := if 0 <=? e then Z.pos m * 2 ^ e else Z.pos m / 2 ^ (- e) in
      if MaxInt64 <? a then MinInt64 else if s then - a else a
  | _ => MinInt64
  end.

(** [func (d Duration) Seconds() float64]:
    [sec := d / Second; nsec := d % Second;
     return float64(sec) + float64(nsec)/1e9]. *)
Definition Seconds (d : Z) : float64 :=
  let sec := Z.quot d Second in
  let nsec := Z.rem d Second in
  SFadd 53 1024 (float64_of_int sec)
        (SFdiv 53 1024 (float64_of_int nsec) (float64_of_int 1000000000)).

End Go.

Import Go.

(** ** Package log_levels *)

Module log_levels.

(** [type LogLevel string] *)
Definition LogLevel := string.

Definition LogLevelTrace : LogLevel := "TRACE".
Definition LogLevelDebug : LogLevel := "DEBUG".
Definition LogLevelInfo : LogLevel := "INFO".
Definition LogLevelWarn : LogLevel := "WARN".
Definition LogLevelError : LogLevel := "ERROR".
Definition LogLevelFatal : LogLevel := "FATAL".

Definition allowedLogLevels : gmap string LogLevel :=
  <["TRACE" := LogLevelTrace]>
  (<["DEBUG" := LogLevelDebug]>
  (<["INFO" := LogLevelInfo]>
  (<["WARN" := LogLevelWarn]>
  (<["ERROR" := LogLevelError]>
  (<["FATAL" := LogLevelFatal]> ∅))))).

Definition orderMap : gmap LogLevel Z :=
  <[LogLevelTrace := 0]>
  (<[LogLevelDebug := 1]>
  (<[LogLevelInfo := 2]>
  (<[LogLevelWarn := 3]>
  (<[LogLevelError := 4]>
  (<[LogLevelFatal := 5]> ∅))))).

(** [strings.ToUpper] for ASCII text: the letters a-z become A-Z and
    every other byte is kept.  Go also maps the letters outside ASCII
    (the dotless i, U+0131, becomes I) and rewrites invalid UTF-8, so
    [ToUpper] is [strings.ToUpper] on the texts of [is_ascii] only. *)
Definition upper_ascii (c : ascii) : ascii :=
  let n := N_of_ascii c in
  if ((97 <=? n) && (n <=? 122))%N then ascii_of_N (n - 32) else c.

Fixpoint ToUpper (s : string) : string :=
  match s with
  | EmptyString => EmptyString
  | String c s' => String (upper_ascii c) (ToUpper s')
  end.

(** The texts of ASCII: every byte is below 128. *)
Fixpoint is_ascii (s : string) : bool :=
  match s with
  | EmptyString => true
  | String c s' => (N_of_ascii c <? 128)%N && is_ascii s'
  end.

Definition IsValidLogLevel (level : string) : bool :=
  match allowedLogLevels !! ToUpper level with
  | Some _ => true
  | None => false
  end.

Definition NormalizeLogLevel (level : string) : LogLevel := ToUpper level.

(** Indexing a Go map with an absent key gives the zero value. *)
Definition order (l : LogLevel) : Z := default 0 (orderMap !! l).

Definition LevelLessThan (a b : LogLevel) : bool := order a <? order b.

Definition AllLogLevels : list LogLevel :=
  [LogLevelTrace; LogLevelDebug; LogLevelInfo; LogLevelWarn; LogLevelError; LogLevelFatal].

(** [UnmarshalJSON].  [decode] is [json.Unmarshal] into a string; the
    result is the level the receiver holds after a call that returns
    [nil], or the error. *)
Definition UnmarshalJSON (decode : string -> result string) (data : string)
    : result LogLevel :=
  match decode data with
  | Err e => Err e
  | Ok raw =>
      let normalized := ToUpper raw in
      match allowedLogLevels !! normalized with
      | Some val => Ok val
      | None => Err ("invalid log level: " ++ raw)%string
      end
  end.

End log_levels.

Import log_levels.

(** ** The Go packages strconv and strings *)

Module strconv.

(** The value of a decimal digit. *)
Definition digit (ch : ascii) : option Z :=
  let n := N_of_ascii ch in
  if ((48 <=? n) && (n <=? 57))%N then Some (Z.of_N n - 48) else None.

(** [n = n*10 + int(ch)] over the bytes of [s]. *)
Fixpoint digits (n : Z) (s : string) : option Z :=
  match s with
  | EmptyString => Some n
  | String ch s' =>
      match digit ch with
      | Some d => digits (n * 10 + d) s'
      | None => None
      end
  end.

(** [strconv.Atoi]: an optional sign, then one or more decimal digits.
    [None] stands for a non-nil error: the syntax error, and the range
    error of a value no [int] holds. *)
Definition Atoi (s : string) : option Z :=
  match s with
  | EmptyString => None
  | String ch rest =>
      let body := if (Ascii.eqb ch "-" || Ascii.eqb ch "+")%char then rest else s in
      match body with
      | EmptyString => None
      | _ =>
          match digits 0 body with
          | None => None
          | Some n =>
              let v := if Ascii.eqb ch "-"%char then - n else n in
              if (MinInt64 <=? v) && (v <=? MaxInt64) then Some v else None
          end
      end
  end.

End strconv.

Module go_strings.

(** The white space of ASCII: tab, line feed, vertical tab, form feed,
    carriage return and space. *)
Definition isSpace (ch : ascii) : bool :=
  let n := N_of_ascii ch in
  (((9 <=? n) && (n <=? 13)) || (n =? 32))%N.

Fixpoint TrimLeft (s : string) : string :=
  match s with
  | EmptyString => EmptyString
  | String ch s' => if isSpace ch then TrimLeft s' else s
  end.

Fixpoint TrimRight (s : string) : string :=
  match s with
  | EmptyString => EmptyString
  | String ch s' =>
      match TrimRight s' with
      | EmptyString => if isSpace ch then EmptyString else String ch EmptyString
      | t => String ch t
      end
  end.

(** [strings.TrimSpace] for ASCII text: leading and trailing white
    space is removed.  Go also removes the white space outside ASCII
    (the no-break space, U+00A0, for one), so [TrimSpace] is
    [strings.TrimSpace] on the texts of [is_ascii] only. *)
Definition TrimSpace (s : string) : string := TrimRight (TrimLeft s).

End go_strings.

(** ** Package utils *)

Module utils.

(** [ValidatePageLimit]: values below 1 get a default, a limit above
    1000 is an error. *)
Definition ValidatePageLimit (page limit : Z) : result (Z * Z) :=
  let page := if page <? 1 then 1 else page in
  let limit := if limit <? 1 then 10 else limit in
  if 1000 <? limit then Err "limit too large" else Ok (page, limit).

(** An [error] result is [None] for [nil]. *)
Definition ValidateWindow (window : Z) : option string :=
  if window <=? 0 then Some "window duration must be > 0" else None.

Definition ValidateMaxRequests (max : Z) : option string :=
  if (max <? 1) || (100000 <? max)
  then Some "maxRequests must be between 1 and 100000"
  else None.

(** [GetAPIKey], given the [X-API-Key] header ([None] when the header
    is missing). *)
Definition GetAPIKey (X_API_Key : option string) : string :=
  go_strings.TrimSpace (default EmptyString X_API_Key).

(** The parameters a handler reads from the query string.
    [r.URL.Query().Get] gives the empty string for a parameter that is
    absent. *)
Record Query : Type := mkQuery {
  query_page : string;
  query_limit : string;
  query_level : string
}.

(** [ParseAndValidatePageLimit] *)
Definition ParseAndValidatePageLimit (pageStr limitStr : string) : result (Z * Z) :=
  let page :=
    if String.eqb pageStr EmptyString then Ok 1
    else match strconv.Atoi pageStr with
         | None => Err "invalid 'page' parameter"
         | Some p => if p <=? 0 then Err "invalid 'page' parameter" else Ok p
         end in
  match page with
  | Err e => Err e
  | Ok page =>
      if String.eqb limitStr EmptyString then Ok (page, 50)
      else match strconv.Atoi limitStr with
           | None => Err "invalid 'limit' parameter"
           | Some l => Ok (page, if l <? 1 then 1 else if 100 <? l then 100 else l)
           end
  end.

Record QueryParams : Type := mkQueryParams {
  Page : Z;
  Limit : Z;
  LogLevel_ : LogLevel
}.

(** [ParseQueryParams] *)
Definition ParseQueryParams (q : Query) : result QueryParams :=
  match ParseAndValidatePageLimit (query_page q) (query_limit q) with
  | Err e => Err e
  | Ok (page, limit) =>
      let levelStr := query_level q in
      let level := NormalizeLogLevel levelStr in
      if negb (String.eqb levelStr EmptyString) && negb (IsValidLogLevel level)
      then Err "invalid log level"
      else Ok (mkQueryParams page limit level)
  end.

End utils.

(** ** Package ratelimit *)

Module ratelimit.

Record clientData : Type := mkClientData {
  count : Z;
  firstSeen : Z
}.

(** The limiter.  The mutex, the ticker and the quit channel have no
    counterpart; the three Prometheus metrics are kept as numbers. *)
Record RateLimiter : Type := mkRateLimiter {
  requests : gmap string clientData;
  maxRequests : Z;
  maxClients : Z;
  window : Z;
  requestsTotal : nat;
  blockedTotal : nat;
  activeClients : Z;
  minLevel : LogLevel;
  perLevelLimits : option (gmap LogLevel Z)
}.

Definition set_requests (rl : RateLimiter) (m : gmap string clientData) : RateLimiter :=
  mkRateLimiter m (maxRequests rl) (maxClients rl) (window rl)
    (requestsTotal rl) (blockedTotal rl) (activeClients rl)
    (minLevel rl) (perLevelLimits rl).

Definition set_activeClients (rl : RateLimiter) (g : Z) : RateLimiter :=
  mkRateLimiter (requests rl) (maxRequests rl) (maxClients rl) (window rl)
    (requestsTotal rl) (blockedTotal rl) g
    (minLevel rl) (perLevelLimits rl).

Definition inc_requestsTotal (rl : RateLimiter) : RateLimiter :=
  mkRateLimiter (requests rl) (maxRequests rl) (maxClients rl) (window rl)
    (S (requestsTotal rl)) (blockedTotal rl) (activeClients rl)
    (minLevel rl) (perLevelLimits rl).

Definition inc_blockedTotal (rl : RateLimiter) : RateLimiter :=
  mkRateLimiter (requests rl) (maxRequests rl) (maxClients rl) (window rl)
    (requestsTotal rl) (S (blockedTotal rl)) (activeClients rl)
    (minLevel rl) (perLevelLimits rl).

(** [len(rl.requests)] *)
Definition len (rl : RateLimiter) : Z := Z.of_nat (size (requests rl)).

(** [NewRateLimiterWithLevel]: the two validations, then the limiter
    with an empty table. *)
Definition NewRateLimiterWithLevel (maxRequests : Z) (window : Z) (maxClients : Z)
    (minLevel : LogLevel) (perLevelLimits : option (gmap LogLevel Z))
    : result RateLimiter :=
  match utils.ValidateMaxRequests maxRequests with
  | Some err => Err err
  | None =>
    match utils.ValidateWindow window with
    | Some err => Err err
    | None =>
        Ok (mkRateLimiter ∅ maxRequests maxClients window 0 0 0
                          minLevel perLevelLimits)
    end
  end.

(** [rl.exists(ip)] *)
Definition exists_ (rl : RateLimiter) (ip : string) : bool :=
  match requests rl !! ip with Some _ => true | None => false end.

(** The loop of [evictOldest] over the entries in the order the [range]
    statement yields them: the pair [(oldestIP, oldestTime)] starts at
    the zero values. *)
Definition oldest_step (acc : string * Z) (kv : string * clientData) : string * Z :=
  let '(oldestIP, oldestTime) := acc in
  let '(ip, data) := kv in
  if IsZero oldestTime || Before (firstSeen data) oldestTime
  then (ip, firstSeen data)
  else (oldestIP, oldestTime).

Definition oldest_scan (entries : list (string * clientData)) : string * Z :=
  fold_left oldest_step entries (EmptyString, 0).

(** [evictOldest]: nothing unless the table holds more than
    [maxClients] entries.  Go leaves the iteration order of a map
    unspecified; here it is the order of [map_to_list]. *)
Definition evictOldest (rl : RateLimiter) : RateLimiter :=
  if len rl <=? maxClients rl then rl
  else
    let oldestIP := fst (oldest_scan (map_to_list (requests rl))) in
    set_requests rl (delete oldestIP (requests rl)).

(** [allow], with the reading [now] of the clock: the limiter after the
    call and the pair the call returns. *)
Definition allow (rl : RateLimiter) (ip : string) (maxRequests : Z) (now : Z)
    : RateLimiter * (bool * Z) :=
  let rl :=
    if negb (exists_ rl ip) && (maxClients rl <=? len rl)
    then evictOldest rl else rl in
  let fresh :=
    let rl := set_requests rl (<[ip := mkClientData 1 now]> (requests rl)) in
    let rl := set_activeClients rl (len rl) in
    (inc_requestsTotal rl, (true, 0)) in
  match requests rl !! ip with
  | None => fresh
  | Some client =>
      if window rl <? Sub now (firstSeen client) then fresh
      else if maxRequests <=? count client then
        (inc_blockedTotal rl, (false, wrap64 (window rl - Sub now (firstSeen client))))
      else
        let client := mkClientData (wrap64 (count client + 1)) (firstSeen client) in
        (inc_requestsTotal (set_requests rl (<[ip := client]> (requests rl))), (true, 0))
  end.

(** What the middleware needs of an [*http.Request]: the key
    [utils.GetClientIP] extracts from it and its [X-Log-Level] header
    ([None] when the header is missing). *)
Record Request : Type := mkRequest {
  clientIP : string;
  X_Log_Level : option string
}.

(** [r.Header.Get]: the empty string for a missing header. *)
Definition Header_Get (h : option string) : string := default EmptyString h.

(** What the middleware does with the request: it calls the next
    handler, or answers 429 with a [Retry-After] header. *)
Inductive Response : Type :=
| Next
| TooManyRequests (retry_after : Z).

(** The quota [Middleware] passes to [allow] for a level. *)
Definition maxReq_for (rl : RateLimiter) (level : LogLevel) : Z :=
  match perLevelLimits rl with
  | Some limits =>
      match limits !! level with
      | Some lvlMax => lvlMax
      | None => maxRequests rl
      end
  | None => maxRequests rl
  end.

(** The value of the [Retry-After] header for a denial. *)
Definition retry_after_seconds (retryAfter : Z) : Z :=
  let seconds := int_of_float64 (Seconds retryAfter) in
  if seconds <? 0 then 0 else seconds.

Definition Middleware (rl : RateLimiter) (r : Request) (now : Z)
    : RateLimiter * Response :=
  let ip := clientIP r in
  let levelStr := Header_Get (X_Log_Level r) in
  let level := NormalizeLogLevel levelStr in
  if LevelLessThan level (minLevel rl) then (rl, Next)
  else
    let maxReq := maxReq_for rl level in
    let '(rl', (allowed, retryAfter)) := allow rl ip maxReq now in
    if negb allowed then (rl', TooManyRequests (retry_after_seconds retryAfter))
    else (rl', Next).

(** [AllowTest] exposes [allow]. *)
Definition AllowTest := allow.

(** A sequence of requests, each with the clock reading of its call. *)
Fixpoint serve (rl : RateLimiter) (reqs : list (Request * Z))
    : RateLimiter * list Response :=
  match reqs with
  | [] => (rl, [])
  | (r, now) :: reqs' =>
      let '(rl1, resp) := Middleware rl r now in
      let '(rl2, resps) := serve rl1 reqs' in
      (rl2, resp :: resps)
  end.

(** *** The periodic cleanup *)

(** The first loop of [cleanup]: each entry the [range] statement yields
    is deleted when its window has expired at [now].  The loop deletes
    only the entry it is at, so [range] yields every entry of the table
    once. *)
Definition sweep_step (rl : RateLimiter) (now : Z) (m : gmap string clientData)
    (kv : string * clientData) : gmap string clientData :=
  let '(ip, data) := kv in
  if window rl <? Sub now (firstSeen data) then delete ip m else m.

Definition sweep_expired (rl : RateLimiter) (now : Z) : gmap string clientData :=
  fold_left (sweep_step rl now) (map_to_list (requests rl)) (requests rl).

(** The second loop,
    [for len(rl.requests) > rl.maxClients { rl.evictOldest() }],
    run for at most [fuel] iterations: [None] when the loop has not
    ended by then. *)
Fixpoint evict_loop (fuel : nat) (rl : RateLimiter) : option RateLimiter :=
  if maxClients rl <? len rl then
    match fuel with
    | O => None
    | S fuel' => evict_loop fuel' (evictOldest rl)
    end
  else Some rl.

(** [cleanup], with the reading [now] of the clock. *)
Definition cleanup (fuel : nat) (rl : RateLimiter) (now : Z) : option RateLimiter :=
  match evict_loop fuel (set_requests rl (sweep_expired rl now)) with
  | Some rl' => Some (set_activeClients rl' (len rl'))
  | None => None
  end.

(** [ClientExists] *)
Definition ClientExists (rl : RateLimiter) (ip : string) : bool := exists_ rl ip.

(** *** Vocabulary of the properties *)

(** The table after a window is opened for [ip] at [now]. *)
Definition opened (rl : RateLimiter) (ip : string) (now : Z) : RateLimiter :=
  let rl := set_requests rl (<[ip := mkClientData 1 now]> (requests rl)) in
  inc_requestsTotal (set_activeClients rl (len rl)).



(** The clock reading is not so far before the window start of the
    client that the 64-bit subtraction of [allow] overflows; it is so
    whenever the window start is not after the clock reading. *)
Definition clock_sane (rl : RateLimiter) (ip : string) (now : Z) : Prop :=
  forall c, requests rl !! ip = Some c -> window rl - MaxInt64 <= now - firstSeen c.

(** The number of 429 answers among the responses. *)
Definition denials (resps : list Response) : nat :=
  length (List.filter
            (fun resp => match resp with TooManyRequests _ => true | Next => false end)
            resps).

(** The requests whose level is not below the minimum level. *)
Definition limited (rl : RateLimiter) (rt : Request * Z) : bool :=
  negb (LevelLessThan (NormalizeLogLevel (Header_Get (X_Log_Level (fst rt)))) (minLevel rl)).

(** Whether the first loop of [cleanup] deletes the entry [kv] as the
    entry of [ip]. *)
Definition expired_at (rl : RateLimiter) (now : Z) (ip : string)
    (kv : string * clientData) : bool :=
  bool_decide (fst kv = ip) && (window rl <? Sub now (firstSeen (snd kv))).

(** [swept t0 a b]: the limiter [b] is [a] without the clients whose
    window has expired at [t0]. *)
Definition swept (t0 : Z) (a b : RateLimiter) : Prop :=
  window b = window a /\ maxClients b = maxClients a /\ minLevel b = minLevel a
  /\ perLevelLimits b = perLevelLimits a /\ maxRequests b = maxRequests a
  /\ forall ip,
       requests b !! ip =
         match requests a !! ip with
         | Some c => if window a <? Sub t0 (firstSeen c) then None else Some c
         | None => None
         end.

(** Every tracked client has a count between 1 and [Q]. *)
Definition counts_within (Q : Z) (rl : RateLimiter) : Prop :=
  forall ip c, requests rl !! ip = Some c -> 1 <= count c <= Q.

End ratelimit.

(** ** Package logger: the SQLite store *)

Module logger.

(** A row of table [logs]:
    [id INTEGER PRIMARY KEY AUTOINCREMENT, level TEXT NOT NULL,
     message TEXT NOT NULL, timestamp TEXT NOT NULL, context TEXT]. *)
Record Row : Type := mkRow {
  id : Z;
  level : string;
  message : string;
  timestamp : string;
  context : option string
}.

(** *** The SQL statements

    The table is the list of its rows in the order they were inserted. *)

(** [LIMIT n]: a negative [n] is no limit.  [OFFSET n]: a negative [n]
    is no offset. *)
Definition sql_limit {A} (n : Z) (l : list A) : list A :=
  if n <? 0 then l else firstn (Z.to_nat n) l.

Definition sql_offset {A} (n : Z) (l : list A) : list A :=
  skipn (Z.to_nat n) l.

(** [ORDER BY id DESC]: ids are compared as integers. *)
Fixpoint insert_desc (x : Z) (l : list Z) : list Z :=
  match l with
  | [] => [x]
  | y :: l' => if y <=? x then x :: l else y :: insert_desc x l'
  end.

Definition order_by_id_desc (l : list Z) : list Z := fold_right insert_desc [] l.

(** [SELECT id FROM logs ORDER BY id DESC LIMIT ?] *)
Definition newest_ids (n : Z) (tbl : list Row) : list Z :=
  sql_limit n (order_by_id_desc (map id tbl)).

(** [GenerateCleanupQuery]:
    [DELETE FROM logs WHERE id NOT IN
       (SELECT id FROM logs ORDER BY id DESC LIMIT ?)];
    the table after the statement. *)
Definition GenerateCleanupQuery (n : Z) (tbl : list Row) : list Row :=
  List.filter (fun r => existsb (Z.eqb (id r)) (newest_ids n tbl)) tbl.

(** [timestamp] is a TEXT column: [ORDER BY timestamp DESC] compares the
    stored texts byte by byte. *)
Definition ts_ge (r1 r2 : Row) : Prop := String.leb (timestamp r2) (timestamp r1) = true.

(** [WHERE level = ?], present only for a non-empty filter. *)
Definition where_level (lvl : string) (tbl : list Row) : list Row :=
  if String.eqb lvl EmptyString then tbl
  else List.filter (fun r => String.eqb (level r) lvl) tbl.

(** The ids of the table ascend in insertion order. *)
Definition ids_ascending (tbl : list Row) : Prop :=
  StronglySorted Z.lt (map id tbl).

Section Store.

(** The standard library and the database engine.
    - [Time] is [time.Time], [Format t] is [t.Format(time.RFC3339)],
      and [SafeParseTimestamp] reads a stored text back.
    - [Context] is a non-nil [map[string]interface{}]; [json_Marshal]
      is [json.Marshal] on it and fails on a value JSON cannot hold.
    - [order_by_timestamp] is the order in which the engine returns the
      rows of [ORDER BY timestamp DESC]: SQL fixes it up to the order of
      rows with equal keys. *)
Variable Time : Type.
Variable Format : Time -> string.
Variable SafeParseTimestamp : string -> Time.
Variable Context : Type.
Variable json_Marshal : Context -> result string.
Variable json_Unmarshal : string -> result Context.
Variable order_by_timestamp : list Row -> list Row.

Definition engine_ok : Prop :=
  forall rows, Permutation (order_by_timestamp rows) rows
               /\ Sorted ts_ge (order_by_timestamp rows).

Record LogEntry : Type := mkLogEntry {
  Level : string;
  Message : string;
  Timestamp : Time;
  Context_ : option Context
}.

(** The logger: the database (table [logs] and the AUTOINCREMENT
    counter of [sqlite_sequence]), the two configured fields the
    methods read, and the error counter [Write] increments. *)
Record SQLiteLogger : Type := mkSQLiteLogger {
  logs : list Row;
  seq : Z;
  maxRows : Z;
  minLevel : LogLevel;
  totalErrors : Z
}.

Definition set_logs (l : SQLiteLogger) (tbl : list Row) (s : Z) : SQLiteLogger :=
  mkSQLiteLogger tbl s (maxRows l) (minLevel l) (totalErrors l).

Definition inc_totalErrors (l : SQLiteLogger) : SQLiteLogger :=
  mkSQLiteLogger (logs l) (seq l) (maxRows l) (minLevel l) (wrap64 (totalErrors l + 1)).

(** [NewSQLiteLogger] on a new database file. *)
Definition NewSQLiteLogger (maxRows : Z) (minLevel : LogLevel) : SQLiteLogger :=
  mkSQLiteLogger [] 0 maxRows (NormalizeLogLevel minLevel) 0.

(** [utils.MarshalContext] *)
Definition MarshalContext (ctx : option Context) : result string :=
  match ctx with
  | None => Ok EmptyString
  | Some c => json_Marshal c
  end.

(** [utils.UnmarshalContext] *)
Definition UnmarshalContext (jsonStr : string) : result (option Context) :=
  if String.eqb jsonStr EmptyString then Ok None
  else match json_Unmarshal jsonStr with
       | Ok c => Ok (Some c)
       | Err e => Err e
       end.

(** The row [Write] inserts, with the id the engine gives it. *)
Definition row_of (rowid : Z) (entry : LogEntry) : Row :=
  let ctxJSON :=
    match MarshalContext (Context_ entry) with
    | Ok s => s
    | Err _ => "{}"
    end in
  mkRow rowid (NormalizeLogLevel (Level entry)) (Message entry)
        (Format (Timestamp entry)) (Some ctxJSON).

(** [Write].  [exec] is the outcome of [insertStmt.Exec] when the call
    reaches it: [None] when the row is inserted, the driver's error
    otherwise. *)
Definition Write (l : SQLiteLogger) (entry : LogEntry) (exec : option string)
    : SQLiteLogger * option string :=
  let entryLevel := NormalizeLogLevel (Level entry) in
  if negb (IsValidLogLevel entryLevel) then
    (inc_totalErrors l, Some ("invalid log level: " ++ Level entry)%string)
  else if LevelLessThan entryLevel (minLevel l) then (l, None)
  else
    match exec with
    | None => (set_logs l (logs l ++ [row_of (seq l + 1) entry]) (seq l + 1), None)
    | Some err => (inc_totalErrors l, Some err)
    end.

(** Whether [Write] reaches [insertStmt.Exec]. *)
Definition reaches_insert (l : SQLiteLogger) (entry : LogEntry) : bool :=
  let entryLevel := NormalizeLogLevel (Level entry) in
  IsValidLogLevel entryLevel && negb (LevelLessThan entryLevel (minLevel l)).

(** [cleanup].  [exec] is the outcome of [db.Exec]. *)
Definition cleanup (l : SQLiteLogger) (exec : option string)
    : SQLiteLogger * option string :=
  if maxRows l <=? 0 then (l, None)
  else
    match exec with
    | None => (set_logs l (GenerateCleanupQuery (maxRows l) (logs l)) (seq l), None)
    | Some err => (l, Some err)
    end.

(** [SELECT level, message, timestamp, context FROM logs [WHERE level = ?]
     ORDER BY timestamp DESC LIMIT ? OFFSET ?] *)
Definition select_logs (tbl : list Row) (lvl : string) (limit offset : Z) : list Row :=
  sql_limit limit (sql_offset offset (order_by_timestamp (where_level lvl tbl))).

(** The body of the [rows.Next()] loop. *)
Definition scan_row (r : Row) : LogEntry :=
  let ctx :=
    match context r with
    | Some s =>
        if negb (String.eqb s EmptyString) then
          match UnmarshalContext s with
          | Ok c => c
          | Err _ => None
          end
        else None
    | None => None
    end in
  mkLogEntry (level r) (message r) (SafeParseTimestamp (timestamp r)) ctx.

(** The arguments [QueryLogs] gives to the statement: the validated
    limit and the offset, a product of Go [int]s. *)
Definition query_args (page limit : Z) : result (Z * Z) :=
  match utils.ValidatePageLimit page limit with
  | Err e => Err e
  | Ok (page, limit) => Ok (limit, wrap64 ((page - 1) * limit))
  end.

(** The rows [QueryLogs] reads.  [query] is the outcome of [db.Query]
    when the call reaches it. *)
Definition QueryLogs_rows (l : SQLiteLogger) (lvl : LogLevel) (page limit : Z)
    (query : option string) : result (list Row) :=
  match query_args page limit with
  | Err e => Err e
  | Ok (limit, offset) =>
      if negb (String.eqb lvl EmptyString) && negb (IsValidLogLevel lvl)
      then Err "invalid log level"
      else
        match query with
        | Some err => Err err
        | None => Ok (select_logs (logs l) lvl limit offset)
        end
  end.

Definition QueryLogs (l : SQLiteLogger) (lvl : LogLevel) (page limit : Z)
    (query : option string) : result (list LogEntry) :=
  match QueryLogs_rows l lvl page limit query with
  | Err e => Err e
  | Ok rs => Ok (map scan_row rs)
  end.

(** *** Vocabulary of the properties *)

(** The invariant of the table: ids ascend in insertion order and none
    exceeds the AUTOINCREMENT counter. *)
Definition store_ok (l : SQLiteLogger) : Prop :=
  ids_ascending (logs l) /\ Forall (fun r => id r <= seq l) (logs l).

(** Appends that all reach the database and succeed there. *)
Fixpoint appends (l : SQLiteLogger) (es : list LogEntry) : SQLiteLogger :=
  match es with
  | [] => l
  | e :: es' => appends (fst (Write l e None)) es'
  end.

(** The rows such appends insert when the counter stands at [s]. *)
Fixpoint rows_from (s : Z) (es : list LogEntry) : list Row :=
  match es with
  | [] => []
  | e :: es' => row_of (s + 1) e :: rows_from (s + 1) es'
  end.

Definition accepted (ml : LogLevel) (e : LogEntry) : Prop :=
  reaches_insert (NewSQLiteLogger 0 ml) e = true.

(** Every stored level is one of the six levels. *)
Definition levels_canonical (l : SQLiteLogger) : Prop :=
  Forall (fun r => level r ∈ AllLogLevels) (logs l).

(** The calls that change the store, each with the outcome of its
    statement, and a sequence of them. *)
Inductive Call : Type :=
| CallWrite (entry : LogEntry) (exec : option string)
| CallCleanup (exec : option string).

Definition call (l : SQLiteLogger) (c : Call) : SQLiteLogger :=
  match c with
  | CallWrite entry exec => fst (Write l entry exec)
  | CallCleanup exec => fst (cleanup l exec)
  end.

Definition calls (l : SQLiteLogger) (cs : list Call) : SQLiteLogger :=
  fold_left call cs l.

End Store.

(** An engine that keeps rows with equal timestamps in table order: a
    stable insertion sort of the rows it scans. *)
Fixpoint insert_row (r : Row) (l : list Row) : list Row :=
  match l with
  | [] => [r]
  | r' :: l' =>
      if String.leb (timestamp r') (timestamp r) then r :: l
      else r' :: insert_row r l'
  end.

Definition stable_order_by_timestamp (rows : list Row) : list Row :=
  fold_right insert_row [] rows.

End logger.

(** ** Package internal: the validation of an entry *)

Module model.

Import logger go_strings.

Definition MaxMessageLength : Z := 1024.
Definition MaxContextSizeBytes : Z := 2048.
Definition MaxContextKeys : Z := 10.

Section Model.

(** [Context] is a non-nil [map[string]interface{}], [json_Marshal] is
    [json.Marshal] on it and [len_keys c] is [len(c)], the number of
    its keys. *)
Variable Time : Type.
Variable Context : Type.
Variable json_Marshal : Context -> result string.
Variable len_keys : Context -> Z.

(** The checks of [Validate] on the context. *)
Definition check_context (ctx : option Context) : option string :=
  match ctx with
  | None => None
  | Some c =>
      if MaxContextKeys <? len_keys c then Some "context too large"
      else match json_Marshal c with
           | Err err => Some ("invalid context JSON: " ++ err)%string
           | Ok contextBytes =>
               if MaxContextSizeBytes <? Z.of_nat (String.length contextBytes)
               then Some "context too large: exceeds 2048 bytes"
               else None
           end
  end.

(** [Validate]: the error, or the entry after the call, whose level is
    normalized. *)
Definition Validate (e : LogEntry Time Context) : result (LogEntry Time Context) :=
  if String.eqb (TrimSpace (Message _ _ e)) EmptyString then Err "message is required"
  else if MaxMessageLength <? Z.of_nat (String.length (Message _ _ e))
  then Err "message too long"
  else
    match check_context (Context_ _ _ e) with
    | Some err => Err err
    | None =>
        if String.eqb (Level _ _ e) EmptyString then Err "level is required"
        else
          let levelNorm := NormalizeLogLevel (Level _ _ e) in
          if negb (IsValidLogLevel levelNorm)
          then Err ("invalid log level: " ++ Level _ _ e)%string
          else Ok (mkLogEntry _ _ levelNorm (Message _ _ e) (Timestamp _ _ e)
                              (Context_ _ _ e))
    end.

End Model.

End model.

(** ** Package handler: reading the logs *)

Module handler.

Import utils.

(** What [handleGetLogs] answers: a status with the error message, or
    status 200 with the entries. *)
Inductive Answer (A : Type) : Type :=
| BadRequest (msg : string)
| InternalServerError (msg : string)
| StatusOK (body : A).
Arguments BadRequest {A} msg.
Arguments InternalServerError {A} msg.
Arguments StatusOK {A} body.

Section Handler.

(** [QueryLogs] is the method of [h.logger], a [LoggerInterface];
    [encode] is the outcome of [json.NewEncoder(w).Encode(logs)].  The
    line [logAudit] prints for every answer has no counterpart. *)
Variable Entry : Type.
Variable QueryLogs : string -> Z -> Z -> result (list Entry).

Definition handleGetLogs (q : Query) (encode : option string) : Answer (list Entry) :=
  let page :=
    if String.eqb (query_page q) EmptyString then Ok 1
    else match strconv.Atoi (query_page q) with
         | None => Err "invalid 'page' parameter"
         | Some v => if v <=? 0 then Err "invalid 'page' parameter" else Ok v
         end in
  match page with
  | Err e => BadRequest e
  | Ok page =>
      let limit :=
        if String.eqb (query_limit q) EmptyString then Ok 50
        else match strconv.Atoi (query_limit q) with
             | None => Err "invalid 'limit' parameter"
             | Some v => Ok (if v <? 1 then 1 else if 100 <? v then 100 else v)
             end in
      match limit with
      | Err e => BadRequest e
      | Ok limit =>
          let levelFilter := query_level q in
          if negb (String.eqb levelFilter EmptyString) && negb (IsValidLogLevel levelFilter)
          then BadRequest "invalid 'level' parameter"
          else
            match QueryLogs levelFilter page limit with
            | Err _ => InternalServerError "failed to query logs"
            | Ok logs =>
                match encode with
                | Some _ => InternalServerError "failed to encode logs"
                | None => StatusOK logs
                end
            end
      end
  end.

End Handler.

End handler.

(** ** Package middleware: the API key *)

Module middleware.

(** [verifyAPIKey], given the [X-API-Key] header of the request.
    [ApiKeyMiddleware] answers 401 when it is false and calls the next
    handler when it is true. *)
Definition verifyAPIKey (X_API_Key : option string) (validKey : string) : bool :=
  let key := utils.GetAPIKey X_API_Key in
  negb (String.eqb key EmptyString) && String.eqb key validKey.

End middleware.

(** ** A world to run the store in

    Instants are given by their RFC 3339 text, a context is its JSON
    text, and the text [func] stands for a context that holds a
    function value, which [json.Marshal] refuses. *)

Module sample.

Import logger.

Definition Time : Type := string.
Definition Format (t : Time) : string := t.
Definition SafeParseTimestamp (s : string) : Time := s.
Definition Ctx : Type := string.
Definition json_Marshal (c : Ctx) : result string :=
  if String.eqb c "func" then Err "json: unsupported type: func()" else Ok c.
Definition json_Unmarshal (s : string) : result Ctx := Ok s.

Definition entry (lvl msg ts : string) : LogEntry Time Ctx :=
  mkLogEntry Time Ctx lvl msg ts None.

Definition Write := Write Time Format Ctx json_Marshal.
Definition QueryLogs_rows := QueryLogs_rows stable_order_by_timestamp.

(** Ten entries whose timestamps run backwards. *)
Definition ten_entries : list (LogEntry Time Ctx) :=
  [entry "INFO" "log 0" "2025-08-06T14:12:09Z"; entry "INFO" "log 1" "2025-08-06T14:12:08Z";
   entry "INFO" "log 2" "2025-08-06T14:12:07Z"; entry "INFO" "log 3" "2025-08-06T14:12:06Z";
   entry "INFO" "log 4" "2025-08-06T14:12:05Z"; entry "INFO" "log 5" "2025-08-06T14:12:04Z";
   entry "INFO" "log 6" "2025-08-06T14:12:03Z"; entry "INFO" "log 7" "2025-08-06T14:12:02Z";
   entry "INFO" "log 8" "2025-08-06T14:12:01Z"; entry "INFO" "log 9" "2025-08-06T14:12:00Z"].

Definition QueryLogs :=
  logger.QueryLogs Time SafeParseTimestamp Ctx json_Unmarshal stable_order_by_timestamp.

(** Every context of this world has one key. *)
Definition len_keys (c : Ctx) : Z := 1.

Definition Validate := model.Validate Time Ctx json_Marshal len_keys.

(** A store that holds one row. *)
Definition one_row : SQLiteLogger :=
  mkSQLiteLogger [mkRow 1 "INFO" "started" "2025-08-06T14:12:00Z" (Some EmptyString)]
                 1 0 "INFO" 0.

(** A store of two rows that keeps one. *)
Definition two_rows : SQLiteLogger :=
  mkSQLiteLogger [mkRow 1 "INFO" "started" "2025-08-06T14:12:00Z" (Some EmptyString);
                  mkRow 2 "WARN" "disk full" "2025-08-06T14:13:00Z" (Some EmptyString)]
                 2 1 "INFO" 0.

Definition disk_full : LogEntry Time Ctx :=
  entry "warn" " disk full " "2025-08-06T14:13:00Z".

(** An entry whose context [json.Marshal] refuses. *)
Definition bad_context : LogEntry Time Ctx :=
  mkLogEntry Time Ctx "warn" "disk full" "2025-08-06T14:13:00Z" (Some "func").

(** A write, a sweep, and a write the driver refuses. *)
Definition three_calls : list (Call Time Ctx) :=
  [CallWrite _ _ disk_full None;
   CallCleanup _ _ None;
   CallWrite _ _ (entry "error" "disk lost" "2025-08-06T14:14:00Z")
             (Some "database is locked")].

(** Two tracked clients, [b] with the earlier window start, under a
    capacity of [cap] clients and a window of [w]. *)
Definition two_clients (cap w : Z) : ratelimit.RateLimiter :=
  ratelimit.mkRateLimiter
    {["a" := ratelimit.mkClientData 1 5; "b" := ratelimit.mkClientData 2 3]}
    2 cap w 3 0 2 "INFO" None.

(** Three requests of the two clients, after the clock reading 6. *)
Definition three_requests : list (ratelimit.Request * Z) :=
  [(ratelimit.mkRequest "b" (Some "INFO"), 7);
   (ratelimit.mkRequest "a" (Some "ERROR"), 8);
   (ratelimit.mkRequest "b" (Some "WARN"), 9)].

(** Four requests of four clients. *)
Definition four_requests : list (ratelimit.Request * Z) :=
  [(ratelimit.mkRequest "1.1.1.1" (Some "INFO"), 1);
   (ratelimit.mkRequest "2.2.2.2" (Some "WARN"), 2);
   (ratelimit.mkRequest "3.3.3.3" None, 3);
   (ratelimit.mkRequest "4.4.4.4" (Some "INFO"), 4)].

End sample.

(** * Properties *)

(** ** Arithmetic of Go integers and durations *)

Module GoFacts.

Lemma wrap64_id z : in_int64 z -> wrap64 z = z.
Proof.
  unfold in_int64, wrap64, MinInt64, MaxInt64. intros H.
  rewrite Z.mod_small; lia.
Qed.

Lemma wrap64_range z : in_int64 (wrap64 z).
Proof.
  unfold in_int64, wrap64, MinInt64, MaxInt64.
  pose proof (Z.mod_pos_bound (z + 2 ^ 63) (2 ^ 64)). lia.
Qed.

Lemma Sub_range t u : in_int64 (Sub t u).
Proof.
  unfold Sub, in_int64, MinInt64, MaxInt64.
  repeat case_match; lia.
Qed.

Lemma Sub_exact t u : in_int64 (t - u) -> Sub t u = t - u.
Proof.
  unfold Sub, in_int64, MinInt64, MaxInt64. intros H.
  repeat case_match; lia.
Qed.

Lemma Sub_diag t : Sub t t = 0.
Proof.
  rewrite Sub_exact; [lia |]. unfold in_int64, MinInt64, MaxInt64. lia.
Qed.

End GoFacts.

(** ** float64: the conversion of a duration to whole seconds *)

Module Float64Facts.

(** *** Digits *)
Lemma digits2_pos_size p : digits2_pos p = Pos.size p.
Proof. induction p; cbn; congruence. Qed.

Lemma digits_bounds p :
  2 ^ (Z.pos (digits2_pos p) - 1) <= Z.pos p < 2 ^ Z.pos (digits2_pos p).
Proof.
  rewrite digits2_pos_size. split.
  - pose proof (Pos.size_le p) as H.
    assert (Hz : 2 ^ Z.pos (Pos.size p) <= 2 * Z.pos p).
    { rewrite <- Pos2Z.inj_pow. change (2 * Z.pos p) with (Z.pos p~0). 
      apply Pos2Z.pos_le_pos. exact H. }
    replace (Z.pos (Pos.size p)) with (Z.pos (Pos.size p) - 1 + 1) in Hz by lia.
    rewrite Z.pow_add_r in Hz by lia. lia.
  - rewrite <- Pos2Z.inj_pow. apply Pos2Z.pos_lt_pos. apply Pos.size_gt.
Qed.

Lemma digits_unique p k :
  2 ^ (k - 1) <= Z.pos p < 2 ^ k -> Z.pos (digits2_pos p) = k.
Proof.
  intros [Hlo Hhi]. pose proof (digits_bounds p) as [Dlo Dhi].
  assert (Hk : 0 < k).
  { destruct (Z.lt_ge_cases 0 k) as [|Hle]; [assumption |].
    exfalso. destruct (Z.eq_dec k 0) as [-> | Hne].
    - cbn in Hhi. lia.
    - rewrite Z.pow_neg_r in Hhi by lia. lia. }
  destruct (Z.lt_trichotomy (Z.pos (digits2_pos p)) k) as [Hlt | [Heq | Hgt]].
  - exfalso.
    assert (2 ^ Z.pos (digits2_pos p) <= 2 ^ (k - 1)) by (apply Z.pow_le_mono_r; lia).
    lia.
  - exact Heq.
  - exfalso.
    assert (2 ^ k <= 2 ^ (Z.pos (digits2_pos p) - 1)) by (apply Z.pow_le_mono_r; lia).
    lia.
Qed.

Lemma Zdigits2_unique m k :
  0 < m -> 2 ^ (k - 1) <= m < 2 ^ k -> Zdigits2 m = k.
Proof.
  intros Hm H. destruct m as [| p | p]; try lia. cbn. now apply digits_unique.
Qed.

(** [Pos.iter xO m d] is a shift to the left. *)
Lemma iter_xO_mul m d : Z.pos (Pos.iter xO m d) = Z.pos m * 2 ^ Z.pos d.
Proof.
  induction d as [| d IH] using Pos.peano_ind.
  - cbn. lia.
  - rewrite Pos.iter_succ, Pos2Z.inj_xO, IH, Pos2Z.inj_succ, Z.pow_succ_r by lia. lia.
Qed.

(** *** Shifting to the right *)

Lemma iter_pos_nat {A} (f : A -> A) p :
  forall x, iter_pos f p x = Nat.iter (Pos.to_nat p) f x.
Proof.
  induction p as [p IH | p IH |]; intros x; cbn [iter_pos].
  - rewrite !IH. rewrite Pos2Nat.inj_xI.
    replace (S (2 * Pos.to_nat p)) with (Pos.to_nat p + (Pos.to_nat p + 1))%nat by lia.
    rewrite !Nat.iter_add. cbn. reflexivity.
  - rewrite !IH. rewrite Pos2Nat.inj_xO.
    replace (2 * Pos.to_nat p)%nat with (Pos.to_nat p + Pos.to_nat p)%nat by lia.
    rewrite Nat.iter_add. reflexivity.
  - reflexivity.
Qed.

Lemma shr_1_nonneg m r s :
  0 <= m ->
  shr_1 (Build_shr_record m r s) = Build_shr_record (m / 2) (Z.odd m) (r || s).
Proof.
  intros Hm. rewrite <- Z.div2_div.
  destruct m as [| [p | p |] | p]; try lia; reflexivity.
Qed.

(** After [k] steps the mantissa is the quotient by [2^k]; a record
    that was exact stays exact when the bits shifted out are zero. *)
Lemma shr_n_spec (k : nat) :
  forall m r s,
    0 <= m ->
    shr_m (Nat.iter k shr_1 (Build_shr_record m r s)) = m / 2 ^ Z.of_nat k
    /\ (r = false -> s = false -> m mod 2 ^ Z.of_nat k = 0 ->
        Nat.iter k shr_1 (Build_shr_record m r s)
        = Build_shr_record (m / 2 ^ Z.of_nat k) false false).
Proof.
  induction k as [| k IH]; intros m r s Hm.
  - cbn. rewrite Z.div_1_r. split; [reflexivity |]. intros -> -> _. reflexivity.
  - rewrite Nat.iter_succ_r, shr_1_nonneg by assumption.
    assert (Hhalf : 0 <= m / 2) by (apply Z.div_pos; lia).
    destruct (IH (m / 2) (Z.odd m) (r || s) Hhalf) as [IHm IHe].
    assert (Hpow : 2 ^ Z.of_nat (S k) = 2 * 2 ^ Z.of_nat k).
    { rewrite Nat2Z.inj_succ, Z.pow_succ_r by lia. reflexivity. }
    assert (Hdiv : m / 2 / 2 ^ Z.of_nat k = m / 2 ^ Z.of_nat (S k)).
    { rewrite Hpow, Z.div_div by lia. reflexivity. }
    split; [rewrite IHm; exact Hdiv |].
    intros -> -> Hmod. rewrite <- Hdiv.
    assert (Hp : 0 < 2 ^ Z.of_nat k) by (apply Z.pow_pos_nonneg; lia).
    rewrite Hpow in Hmod.
    assert (Hm2 : m mod 2 = 0).
    { rewrite <- (Z.mod_mod_divide m (2 * 2 ^ Z.of_nat k) 2) by (exists (2 ^ Z.of_nat k); lia).
      rewrite Hmod. reflexivity. }
    assert (Hodd : Z.odd m = false).
    { rewrite Zmod_odd in Hm2. destruct (Z.odd m); [discriminate | reflexivity]. }
    rewrite Hodd in *. cbn [orb] in *.
    apply IHe; try reflexivity.
    rewrite Z.mod_eq in Hmod |- * by lia.
    rewrite Z.div_div by lia.
    pose proof (Z.div_mod m 2 ltac:(lia)) as Hdm. 
    assert (m = 2 * (m / 2)) by lia.
    pose proof (Z.div_mod m (2 * 2 ^ Z.of_nat k) ltac:(lia)) as Hdm2.
    nia.
Qed.

(** The round bit after the last step is the last bit shifted out. *)
Lemma shr_r_last (k : nat) m r s :
  0 <= m ->
  shr_r (Nat.iter (S k) shr_1 (Build_shr_record m r s)) = Z.odd (m / 2 ^ Z.of_nat k).
Proof.
  intros Hm. rewrite Nat.iter_succ.
  destruct (shr_n_spec k m r s Hm) as [Hk _].
  destruct (Nat.iter k shr_1 _) as [m' r' s']. cbn [shr_m] in Hk. subst m'.
  rewrite shr_1_nonneg; [reflexivity |].
  apply Z.div_pos; [lia | apply Z.pow_pos_nonneg; lia].
Qed.

Lemma round_nearest_even_below_half mrs :
  shr_r mrs = false ->
  round_nearest_even (shr_m mrs) (loc_of_shr_record mrs) = shr_m mrs.
Proof. destruct mrs as [m [] []]; cbn; congruence. Qed.

Lemma round_nearest_even_bounds m l :
  m <= round_nearest_even m l <= m + 1.
Proof. destruct l as [| []]; cbn; try lia. destruct (Z.even m); lia. Qed.

Lemma loc_of_record_of_loc m l : loc_of_shr_record (shr_record_of_loc m l) = l.
Proof. destruct l as [| []]; reflexivity. Qed.

Lemma shr_m_record_of_loc m l : shr_m (shr_record_of_loc m l) = m.
Proof. destruct l as [| []]; reflexivity. Qed.


Lemma fexp_normal e : -1074 <= e - 53 -> fexp 53 1024 e = e - 53.
Proof. unfold fexp, emin. lia. Qed.

(** The first shift of [binary_round_aux] on a mantissa of [53 + n]
    digits. *)
Lemma shr_fexp_first (M e n : Z) (l : location) :
  0 <= n -> 2 ^ (52 + n) <= M < 2 ^ (53 + n) -> -1074 <= e + n ->
  exists mrs,
    shr_fexp 53 1024 M e l = (mrs, e + n)
    /\ shr_m mrs = M / 2 ^ n
    /\ (l = loc_Exact -> M mod 2 ^ n = 0 -> loc_of_shr_record mrs = loc_Exact)
    /\ (1 <= n -> shr_r mrs = Z.odd (M / 2 ^ (n - 1))).
Proof.
  intros Hn HM He.
  assert (Hpos : 0 < M).
  { assert (0 < 2 ^ (52 + n)) by (apply Z.pow_pos_nonneg; lia). lia. }
  unfold shr_fexp.
  rewrite (Zdigits2_unique M (53 + n)) by (replace (53 + n - 1) with (52 + n) by lia; tauto).
  rewrite fexp_normal by lia.
  replace (53 + n + e - 53 - e) with n by lia.
  destruct n as [| p | p]; [| | lia].
  - exists (shr_record_of_loc M l). unfold shr.
    rewrite Z.add_0_r, shr_m_record_of_loc, Z.div_1_r, loc_of_record_of_loc.
    repeat split; try tauto. lia.
  - exists (iter_pos shr_1 p (shr_record_of_loc M l)). unfold shr.
    rewrite iter_pos_nat.
    assert (Hk : Z.of_nat (Pos.to_nat p) = Z.pos p) by apply positive_nat_Z.
    split; [reflexivity |].
    assert (Hr : shr_r (Nat.iter (Pos.to_nat p) shr_1 (shr_record_of_loc M l))
                 = Z.odd (M / 2 ^ (Z.pos p - 1))).
    { destruct (Pos.to_nat p) as [| k] eqn:Ek; [lia |].
      replace (Z.pos p - 1) with (Z.of_nat k) by lia.
      destruct l as [| []]; cbn [shr_record_of_loc]; apply shr_r_last; lia. }
    destruct l as [| c].
    + destruct (shr_n_spec (Pos.to_nat p) M false false ltac:(lia)) as [Hm Hex].
      cbn [shr_record_of_loc] in *. rewrite Hk in *.
      split; [exact Hm |]. split; [| intros _; exact Hr].
      intros _ Hmod. rewrite Hex by tauto. reflexivity.
    + assert (Hm : shr_m (Nat.iter (Pos.to_nat p) shr_1 (shr_record_of_loc M (loc_Inexact c)))
                   = M / 2 ^ Z.pos p).
      { rewrite <- Hk. destruct c; cbn [shr_record_of_loc];
          apply shr_n_spec; lia. }
      split; [exact Hm |]. split; [| intros _; exact Hr].
      intros Habs. discriminate.
Qed.

(** The second shift: a mantissa that rounding took to [2^53] is
    brought back to 53 digits. *)
Lemma shr_fexp_second (m2 e1 : Z) :
  2 ^ 52 <= m2 <= 2 ^ 53 -> -1074 <= e1 -> e1 + 1 <= 971 ->
  exists m3 e3,
    (let '(mrs, e'') := shr_fexp 53 1024 m2 e1 loc_Exact in
     match shr_m mrs with
     | Z0 => S754_zero false
     | Z.pos m => if e'' <=? 1024 - 53 then S754_finite false m e'' else S754_infinity false
     | Z.neg _ => S754_nan
     end) = S754_finite false m3 e3
    /\ 2 ^ 52 <= Z.pos m3 < 2 ^ 53
    /\ ((e3 = e1 /\ Z.pos m3 = m2) \/ (e3 = e1 + 1 /\ 2 * Z.pos m3 = m2)).
Proof.
  intros Hm He Hmax.
  destruct (Z.eq_dec m2 (2 ^ 53)) as [-> | Hne].
  - exists (Z.to_pos (2 ^ 52)), (e1 + 1).
    unfold shr_fexp.
    rewrite (Zdigits2_unique (2 ^ 53) 54) by (cbn; lia).
    rewrite fexp_normal by lia.
    replace (54 + e1 - 53 - e1) with 1 by lia.
    cbn [shr shr_record_of_loc iter_pos].
    change (shr_1 {| shr_m := 2 ^ 53; shr_r := false; shr_s := false |})
      with {| shr_m := 2 ^ 52; shr_r := false; shr_s := false |}.
    cbn [shr_m]. change (2 ^ 52) with (Z.pos (Z.to_pos (2 ^ 52))) at 1.
    cbv iota beta.
    destruct (Z.leb_spec (e1 + 1) (1024 - 53)); [| lia].
    split; [reflexivity |]. split; [cbn; lia |]. right. cbn. lia.
  - assert (Hlt : m2 < 2 ^ 53) by lia.
    destruct m2 as [| p | p]; try (cbn in Hm; lia).
    exists p, e1. unfold shr_fexp.
    rewrite (Zdigits2_unique (Z.pos p) 53) by (cbn; lia).
    rewrite fexp_normal by lia.
    replace (53 + e1 - 53 - e1) with 0 by lia.
    cbn [shr shr_record_of_loc shr_m].
    destruct (Z.leb_spec e1 (1024 - 53)); [| lia].
    split; [reflexivity |]. split; [lia |]. left. tauto.
Qed.

(** [binary_round_aux] on a positive mantissa of [53 + n] digits in the
    normal range: the result is finite and positive with a mantissa of
    53 digits, and its value is the truncation of the input to that
    precision or one unit above it, and the truncation itself when the
    input is exact at that precision. *)
Lemma binary_round_aux_bounds (M e n : Z) (l : location) :
  0 <= n -> 2 ^ (52 + n) <= M < 2 ^ (53 + n) ->
  -1074 <= e + n -> e + n + 1 <= 971 ->
  exists m3 e3 m2,
    binary_round_aux 53 1024 false M e l = S754_finite false m3 e3
    /\ 2 ^ 52 <= Z.pos m3 < 2 ^ 53
    /\ ((e3 = e + n /\ Z.pos m3 = m2) \/ (e3 = e + n + 1 /\ 2 * Z.pos m3 = m2))
    /\ M / 2 ^ n <= m2 <= M / 2 ^ n + 1
    /\ (l = loc_Exact -> M mod 2 ^ n = 0 -> m2 = M / 2 ^ n)
    /\ (1 <= n -> Z.odd (M / 2 ^ (n - 1)) = false -> m2 = M / 2 ^ n).
Proof.
  intros Hn HM He Hmax.
  destruct (shr_fexp_first M e n l Hn HM He) as (mrs & Hfirst & Hm1 & Hexact & Hrbit).
  set (m2 := round_nearest_even (shr_m mrs) (loc_of_shr_record mrs)).
  pose proof (round_nearest_even_bounds (shr_m mrs) (loc_of_shr_record mrs)) as Hb.
  fold m2 in Hb. rewrite Hm1 in Hb.
  assert (Hp : 0 < 2 ^ n) by (apply Z.pow_pos_nonneg; lia).
  assert (Hm1b : 2 ^ 52 <= M / 2 ^ n < 2 ^ 53).
  { rewrite !Z.pow_add_r in HM by lia. split.
    - apply Z.div_le_lower_bound; lia.
    - apply Z.div_lt_upper_bound; lia. }
  destruct (shr_fexp_second m2 (e + n) ltac:(lia) He Hmax) as (m3 & e3 & Hsecond & Hm3 & Hcase).
  exists m3, e3, m2. unfold binary_round_aux. rewrite Hfirst. fold m2.
  split; [exact Hsecond |]. split; [exact Hm3 |]. split; [exact Hcase |].
  split; [exact Hb |]. split.
  - intros Hl Hmod. unfold m2. rewrite (Hexact Hl Hmod). cbn. exact Hm1.
  - intros Hn1 Hodd. unfold m2.
    rewrite round_nearest_even_below_half by (rewrite Hrbit by exact Hn1; exact Hodd).
    exact Hm1.
Qed.


(** [float64(z)] is exact for [0 < z < 2^53]: a mantissa of 53 digits
    and the exponent that makes the value [z]. *)
Lemma float64_of_int_exact z :
  0 < z < 2 ^ 53 ->
  exists m e,
    float64_of_int z = S754_finite false m e
    /\ 2 ^ 52 <= Z.pos m < 2 ^ 53
    /\ -52 <= e <= 0
    /\ Z.pos m = z * 2 ^ (- e).
Proof.
  intros Hz. destruct z as [| p | p]; try lia.
  unfold float64_of_int, binary_normalize, binary_round.
  pose proof (digits_bounds p) as [Dlo Dhi].
  set (dg := Z.pos (digits2_pos p)) in *.
  assert (Hdg : 1 <= dg <= 53).
  { split; [unfold dg; lia |].
    destruct (Z.le_gt_cases dg 53) as [| Hgt]; [assumption |].
    assert (2 ^ 53 <= 2 ^ (dg - 1)) by (apply Z.pow_le_mono_r; lia). lia. }
  rewrite Z.add_0_r, fexp_normal by lia.
  assert (Hsh : exists mz, shl_align p 0 (dg - 53) = (mz, dg - 53)
                           /\ Z.pos mz = Z.pos p * 2 ^ (53 - dg)).
  { unfold shl_align. rewrite Z.sub_0_r.
    destruct (dg - 53) as [| d | d] eqn:E; try lia.
    - exists p. split; [reflexivity |]. replace (53 - dg) with 0 by lia. lia.
    - exists (Pos.iter xO p d). split; [reflexivity |].
      rewrite iter_xO_mul. f_equal. f_equal. lia. }
  destruct Hsh as (mz & -> & Hmz).
  assert (Hrange : 2 ^ 52 <= Z.pos mz < 2 ^ 53).
  { rewrite Hmz.
    assert (E1 : 2 ^ 52 = 2 ^ (dg - 1) * 2 ^ (53 - dg))
      by (rewrite <- Z.pow_add_r by lia; f_equal; lia).
    assert (E2 : 2 ^ 53 = 2 ^ dg * 2 ^ (53 - dg))
      by (rewrite <- Z.pow_add_r by lia; f_equal; lia).
    assert (0 < 2 ^ (53 - dg)) by (apply Z.pow_pos_nonneg; lia).
    rewrite E1, E2. split; nia. }
  destruct (binary_round_aux_bounds (Z.pos mz) (dg - 53) 0 loc_Exact)
    as (m3 & e3 & m2 & Hres & Hm3 & Hcase & Hb & Hex & _); try lia.
  rewrite Z.div_1_r in *.
  specialize (Hex eq_refl (Z.mod_1_r _)).
  exists m3, e3. rewrite Hres.
  destruct Hcase as [[-> Hm] | [_ Hm]]; [| lia].
  split; [reflexivity |]. split; [exact Hm3 |]. split; [lia |].
  rewrite Hm, Hex, Hmz. f_equal. f_equal. lia.
Qed.


Lemma new_location_exact nb_steps : new_location nb_steps 0 = loc_Exact.
Proof. unfold new_location, new_location_even, new_location_odd. by destruct (Z.even nb_steps). Qed.

(** The quotient of two positive floats with 53-digit mantissas is the
    rounding of the integer quotient [q] of [mx * 2^53] by [my], which
    has 53 or 54 digits. *)
Lemma SFdiv_finite (mx my : positive) (ex ey : Z) :
  2 ^ 52 <= Z.pos mx < 2 ^ 53 -> 2 ^ 52 <= Z.pos my < 2 ^ 53 ->
  -900 <= ex - ey <= 900 ->
  exists l n,
    SFdiv 53 1024 (S754_finite false mx ex) (S754_finite false my ey)
    = binary_round_aux 53 1024 false (Z.pos mx * 2 ^ 53 / Z.pos my) (ex - ey - 53) l
    /\ ((Z.pos mx * 2 ^ 53) mod Z.pos my = 0 -> l = loc_Exact)
    /\ (n = 0 \/ n = 1)
    /\ 2 ^ (52 + n) <= Z.pos mx * 2 ^ 53 / Z.pos my < 2 ^ (53 + n).
Proof.
  intros Hx Hy He.
  unfold SFdiv, SFdiv_core_binary. cbn [xorb].
  rewrite (Zdigits2_unique (Z.pos mx) 53), (Zdigits2_unique (Z.pos my) 53)
    by (cbn; lia).
  replace (53 + ex - (53 + ey)) with (ex - ey) by lia.
  rewrite fexp_normal by lia.
  rewrite Z.min_l by lia.
  replace (ex - ey - (ex - ey - 53)) with 53 by lia.
  cbv iota beta. rewrite Z.shiftl_mul_pow2 by lia.
  set (m' := Z.pos mx * 2 ^ 53).
  pose proof (Z.div_eucl_eq m' (Z.pos my) ltac:(lia)) as Heq.
  pose proof (Z.mod_pos_bound m' (Z.pos my) ltac:(lia)) as Hr.
  unfold Z.modulo, Z.div in *.
  destruct (Z.div_eucl m' (Z.pos my)) as [q r]. cbn [fst snd] in *.
  assert (Hq : 2 ^ 52 <= q < 2 ^ 54).
  { unfold m' in Heq. split; nia. }
  exists (new_location (Z.pos my) r),
         (if q <? 2 ^ 53 then 0 else 1).
  split; [reflexivity |].
  split; [intros ->; apply new_location_exact |].
  destruct (Z.ltb_spec q (2 ^ 53)).
  - split; [by left |]. cbn. lia.
  - split; [by right |]. cbn. lia.
Qed.


Lemma float64_1e9 :
  float64_of_int 1000000000 = S754_finite false 8388608000000000 (-23).
Proof. reflexivity. Qed.

(** The fraction [float64(nsec)/1e9] of [Seconds], for
    [0 < nsec < 10^9]: a positive float of 53 digits whose value is
    below [1 - 2^-30]. *)
Lemma nsec_fraction nsec :
  0 < nsec < 1000000000 ->
  exists mf ef,
    SFdiv 53 1024 (float64_of_int nsec) (float64_of_int 1000000000)
    = S754_finite false mf ef
    /\ 2 ^ 52 <= Z.pos mf < 2 ^ 53
    /\ -90 <= ef <= -53
    /\ Z.pos mf * 2 ^ 30 < (2 ^ 30 - 1) * 2 ^ (- ef).
Proof.
  intros Hn.
  destruct (float64_of_int_exact nsec) as (mx & ex & -> & Hmx & Hex & Hval);
    [lia |].
  rewrite float64_1e9.
  set (P := 2 ^ (- ex)) in *.
  assert (HP : 2 ^ 23 <= P).
  { destruct (Z.le_gt_cases 23 (- ex)) as [Hle | Hgt].
    - apply Z.pow_le_mono_r; lia.
    - exfalso. assert (P <= 2 ^ 22) by (apply Z.pow_le_mono_r; lia). nia. }
  assert (Hex' : ex <= -23).
  { destruct (Z.le_gt_cases ex (-23)) as [| Hgt]; [assumption |].
    exfalso. assert (P <= 2 ^ 22) by (apply Z.pow_le_mono_r; lia). lia. }
  destruct (SFdiv_finite mx 8388608000000000 ex (-23) Hmx ltac:(lia) ltac:(lia))
    as (l & n & -> & _ & Hn01 & Hq).
  set (q := Z.pos mx * 2 ^ 53 / 8388608000000000) in *.
  assert (Hqle : q * 8388608000000000 <= Z.pos mx * 2 ^ 53).
  { pose proof (Z.mul_div_le (Z.pos mx * 2 ^ 53) 8388608000000000 ltac:(lia)).
    unfold q. lia. }
  assert (Hmxle : Z.pos mx <= 999999999 * P) by (rewrite Hval; nia).
  assert (Hgap : q + 3 <= (2 ^ 30 - 1) * P) by lia.
  destruct (binary_round_aux_bounds q (ex - -23 - 53) n l)
    as (m3 & e3 & m2 & -> & Hm3 & Hcase & Hb & _ & _); try lia.
  assert (Hdiv : q / 2 ^ n * 2 ^ n <= q).
  { rewrite Z.mul_comm. apply Z.mul_div_le. destruct Hn01 as [-> | ->]; cbn; lia. }
  exists m3, e3. split; [reflexivity |]. split; [exact Hm3 |].
  assert (Hpow : forall a, 0 <= a -> 2 ^ (a + - ex) = 2 ^ a * P).
  { intros a Ha. unfold P. rewrite Z.pow_add_r by lia. reflexivity. }
  assert (Hbound : Z.pos m3 * 2 ^ 30 < (2 ^ 30 - 1) * 2 ^ (- e3)).
  { destruct Hn01 as [-> | ->]; destruct Hcase as [[-> Hm] | [-> Hm]].
    - replace (- (ex - -23 - 53 + 0)) with (30 + - ex) by lia.
      rewrite Hpow by lia. cbn in Hdiv. lia.
    - replace (- (ex - -23 - 53 + 0 + 1)) with (29 + - ex) by lia.
      rewrite Hpow by lia. cbn in Hdiv. lia.
    - replace (- (ex - -23 - 53 + 1)) with (29 + - ex) by lia.
      rewrite Hpow by lia. cbn in Hdiv. lia.
    - replace (- (ex - -23 - 53 + 1 + 1)) with (28 + - ex) by lia.
      rewrite Hpow by lia. cbn in Hdiv. lia. }
  split; [| exact Hbound].
  split; [destruct Hn01 as [-> | ->]; destruct Hcase as [[-> _] | [-> _]]; lia |].
  destruct (Z.le_gt_cases e3 (-53)) as [| Hgt]; [assumption |].
  exfalso. assert (2 ^ (- e3) <= 2 ^ 52) by (apply Z.pow_le_mono_r; lia). lia.
Qed.


(** [int(f)] of a positive float below one. *)
Lemma int_of_fraction mf ef :
  Z.pos mf < 2 ^ 53 -> ef <= -53 -> int_of_float64 (S754_finite false mf ef) = 0.
Proof.
  intros Hm He. unfold int_of_float64.
  destruct (Z.leb_spec 0 ef); [lia |].
  assert (2 ^ 53 <= 2 ^ (- ef)) by (apply Z.pow_le_mono_r; lia).
  rewrite Z.div_small by lia. reflexivity.
Qed.

(** [int(float64(sec))] for [0 < sec < 2^53]. *)
Lemma int_of_float64_of_int sec :
  0 < sec < 2 ^ 53 -> int_of_float64 (float64_of_int sec) = sec.
Proof.
  intros Hs.
  destruct (float64_of_int_exact sec Hs) as (m & e & -> & Hm & He & Hval).
  unfold int_of_float64.
  assert (Hp : 0 < 2 ^ (- e)) by (apply Z.pow_pos_nonneg; lia).
  assert (Ha : (if 0 <=? e then Z.pos m * 2 ^ e else Z.pos m / 2 ^ (- e)) = sec).
  { destruct (Z.leb_spec 0 e).
    - replace e with 0 in * by lia. cbn in Hval |- *. lia.
    - rewrite Hval. apply Z.div_mul. lia. }
  rewrite Ha. unfold MaxInt64.
  destruct (Z.ltb_spec (2 ^ 63 - 1) sec); [lia | reflexivity].
Qed.

(** The sum [float64(sec) + f] of [Seconds], for [0 < sec < 2^24] and a
    fraction [f] below [1 - 2^-30]: the sum is below the midpoint of the
    two floats around [sec + 1], so it is rounded to a float below
    [sec + 1], and its integer part is [sec]. *)
Lemma int_of_sum sec mf ef :
  0 < sec < 2 ^ 24 ->
  2 ^ 52 <= Z.pos mf < 2 ^ 53 -> -90 <= ef <= -53 ->
  Z.pos mf * 2 ^ 30 < (2 ^ 30 - 1) * 2 ^ (- ef) ->
  int_of_float64 (SFadd 53 1024 (float64_of_int sec) (S754_finite false mf ef)) = sec.
Proof.
  intros Hs Hmf Hef Hfrac.
  destruct (float64_of_int_exact sec) as (ms & es & -> & Hms & Hes & Hval); [lia |].
  set (Q := 2 ^ (- es)) in *.
  assert (HQ : 2 ^ 29 <= Q).
  { destruct (Z.le_gt_cases 29 (- es)) as [Hle | Hgt].
    - apply Z.pow_le_mono_r; lia.
    - exfalso. assert (Q <= 2 ^ 28) by (apply Z.pow_le_mono_r; lia). nia. }
  assert (Hes' : es <= -29).
  { destruct (Z.le_gt_cases es (-29)) as [| Hgt]; [assumption |].
    exfalso. assert (Q <= 2 ^ 28) by (apply Z.pow_le_mono_r; lia). lia. }
  set (n := es - ef).
  assert (Hn : 1 <= n) by (unfold n; lia).
  set (N2 := 2 ^ (n - 1)).
  assert (HN2 : 0 < N2) by (apply Z.pow_pos_nonneg; lia).
  assert (HN : 2 ^ n = 2 * N2).
  { unfold N2. rewrite <- Z.pow_succ_r by lia. f_equal. lia. }
  assert (HQN : 2 ^ (- ef) = Q * (2 * N2)).
  { rewrite <- HN. unfold Q, n. rewrite <- Z.pow_add_r by lia. f_equal. lia. }
  (* the fraction is below the midpoint *)
  assert (Hmid : Z.pos mf < (2 * Q - 1) * N2).
  { rewrite HQN in Hfrac. nia. }
  assert (Hsec1 : (sec + 1) * Q <= 2 ^ 53).
  { assert (HR : 2 ^ 53 = Q * 2 ^ (53 + es)).
    { unfold Q. rewrite <- Z.pow_add_r by lia. f_equal. lia. }
    assert (0 < 2 ^ (53 + es)) by (apply Z.pow_pos_nonneg; lia).
    rewrite HR in *. nia. }
  (* the sum of the aligned mantissas *)
  unfold SFadd. rewrite Z.min_r by lia.
  assert (Hal1 : exists a, shl_align ms es ef = (a, ef) /\ Z.pos a = Z.pos ms * (2 * N2)).
  { unfold shl_align. destruct (ef - es) as [| d | d] eqn:E; try lia.
    exists (Pos.iter xO ms d). split; [reflexivity |].
    rewrite iter_xO_mul, <- HN. unfold n. f_equal. f_equal. lia. }
  destruct Hal1 as (a & -> & Ha).
  assert (Hal2 : shl_align mf ef ef = (mf, ef)).
  { unfold shl_align. rewrite Z.sub_diag. reflexivity. }
  rewrite Hal2. cbn [fst cond_Zopp].
  change (Z.pos a + Z.pos mf) with (Z.pos (a + mf)).
  set (M := (a + mf)%positive).
  assert (HM : Z.pos M = Z.pos ms * (2 * N2) + Z.pos mf) by (unfold M; lia).
  assert (HMrange : 2 ^ (52 + n) <= Z.pos M < 2 ^ (53 + n)).
  { rewrite !Z.pow_add_r, HN by lia. rewrite HM. split; nia. }
  unfold binary_normalize, binary_round.
  rewrite (digits_unique M (53 + n))
    by (replace (53 + n - 1) with (52 + n) by lia; exact HMrange).
  rewrite fexp_normal by (unfold n; lia).
  assert (Hal3 : shl_align M ef (53 + n + ef - 53) = (M, ef)).
  { unfold shl_align. destruct (53 + n + ef - 53 - ef) as [| d | d] eqn:E; try reflexivity.
    unfold n in *. lia. }
  rewrite Hal3.
  destruct (binary_round_aux_bounds (Z.pos M) ef n loc_Exact)
    as (m3 & e3 & m2 & -> & Hm3 & Hcase & Hb & _ & Hhalf);
    try exact HMrange; try (unfold n; lia).
  fold N2 in Hhalf. rewrite HN in Hb, Hhalf. specialize (Hhalf Hn).
  assert (Hdivlo : Z.pos ms <= Z.pos M / (2 * N2)).
  { apply Z.div_le_lower_bound; lia. }
  assert (Hdivhi : Z.pos M / (2 * N2) <= Z.pos ms + Q - 1).
  { assert (Z.pos M / (2 * N2) < Z.pos ms + Q); [| lia].
    apply Z.div_lt_upper_bound; [lia |]. nia. }
  assert (Hm2 : Z.pos ms <= m2 <= Z.pos ms + Q - 1).
  { split; [lia |].
    destruct (Z.eq_dec (Z.pos M / (2 * N2)) (Z.pos ms + Q - 1)) as [Heq | Hne]; [| lia].
    assert (Hbit : Z.pos M / N2 = 2 * (Z.pos ms + Q - 1)).
    { pose proof (Z.mul_div_le (Z.pos M) (2 * N2) ltac:(lia)) as Hle.
      rewrite Heq in Hle.
      symmetry. apply Z.div_unique with (Z.pos M - 2 * (Z.pos ms + Q - 1) * N2); nia. }
    rewrite Hhalf; [lia |].
    rewrite Hbit, Z.odd_mul. reflexivity. }
  destruct Hcase as [[-> Hm] | [_ Hm]]; [| nia].
  unfold int_of_float64.
  destruct (Z.leb_spec 0 (ef + n)); [unfold n in *; lia |].
  replace (- (ef + n)) with (- es) by (unfold n; lia). fold Q.
  assert (Hq : Z.pos m3 / Q = sec).
  { symmetry. apply Z.div_unique with (Z.pos m3 - sec * Q). lia. nia. }
  rewrite Hq. unfold MaxInt64.
  destruct (Z.ltb_spec (2 ^ 63 - 1) sec); [lia | reflexivity].
Qed.

(** [int(d.Seconds())] is the whole number of seconds of [d], for a
    non-negative duration below [2^24] seconds. *)
Theorem Seconds_whole d :
  0 <= d < 2 ^ 24 * Second -> int_of_float64 (Seconds d) = d / Second.
Proof.
  intros Hd. unfold Seconds, Second in *.
  rewrite Z.quot_div_nonneg, Z.rem_mod_nonneg by lia.
  pose proof (Z.mod_pos_bound d 1000000000 ltac:(lia)) as Hns.
  assert (Hsec : 0 <= d / 1000000000 < 2 ^ 24).
  { split; [apply Z.div_pos; lia | apply Z.div_lt_upper_bound; lia]. }
  set (sec := d / 1000000000) in *. set (nsec := d mod 1000000000) in *.
  destruct (Z.eq_dec nsec 0) as [-> | Hn0]; destruct (Z.eq_dec sec 0) as [-> | Hs0].
  - reflexivity.
  - destruct (float64_of_int_exact sec) as (m & e & Hf & _); [lia |].
    pose proof (int_of_float64_of_int sec ltac:(lia)) as Hi.
    rewrite Hf in *. exact Hi.
  - destruct (nsec_fraction nsec) as (mf & ef & -> & Hmf & Hef & _); [lia |].
    change (float64_of_int 0) with (S754_zero false). cbn [SFadd].
    apply int_of_fraction; lia.
  - destruct (nsec_fraction nsec) as (mf & ef & -> & Hmf & Hef & Hfrac); [lia |].
    apply int_of_sum; lia || assumption.
Qed.

End Float64Facts.

(** ** The levels *)

Module log_levels_facts.

Lemma order_unrecognized (l : LogLevel) : l ∉ AllLogLevels -> order l = 0.
Proof.
  unfold AllLogLevels, order, orderMap. intros H.
  repeat (rewrite lookup_insert_ne; [| intros E; apply H; rewrite <- E; apply list_elem_of_In; cbn; tauto]).
  rewrite lookup_empty. reflexivity.
Qed.

Lemma order_range (l : LogLevel) : 0 <= order l <= 5.
Proof.
  unfold order, orderMap.
  repeat (rewrite lookup_insert; case_decide; [simpl; lia |]).
  rewrite lookup_empty. simpl. lia.
Qed.

Lemma ToUpper_empty : ToUpper EmptyString = EmptyString.
Proof. reflexivity. Qed.

Lemma upper_ascii_idem c : upper_ascii (upper_ascii c) = upper_ascii c.
Proof. destruct c as [[] [] [] [] [] [] [] []]; reflexivity. Qed.

Lemma ToUpper_idem s : ToUpper (ToUpper s) = ToUpper s.
Proof. induction s as [| c s IH]; cbn; [done |]. by rewrite upper_ascii_idem, IH. Qed.

(** [IsValidLogLevel] recognizes the strings whose upper-case form is
    one of the six levels. *)
Lemma IsValidLogLevel_spec s :
  IsValidLogLevel s = true <-> ToUpper s ∈ AllLogLevels.
Proof.
  unfold IsValidLogLevel, allowedLogLevels, AllLogLevels.
  generalize (ToUpper s). intros x.
  repeat (rewrite lookup_insert; destruct (decide (_ = x)) as [<- | ?];
          [split; [intros _; apply list_elem_of_In; cbn; tauto | done] |]).
  rewrite lookup_empty. split; [done |]. intros H.
  repeat (apply elem_of_cons in H as [H | H]; [by symmetry in H |]).
  by apply elem_of_nil in H.
Qed.

Lemma IsValidLogLevel_Normalize s :
  IsValidLogLevel (NormalizeLogLevel s) = true <-> NormalizeLogLevel s ∈ AllLogLevels.
Proof. rewrite IsValidLogLevel_spec. unfold NormalizeLogLevel. by rewrite ToUpper_idem. Qed.

Lemma empty_unrecognized : NormalizeLogLevel EmptyString ∉ AllLogLevels.
Proof.
  unfold AllLogLevels. cbn. intros H.
  repeat (apply elem_of_cons in H as [H | H]; [discriminate |]).
  by apply elem_of_nil in H.
Qed.

End log_levels_facts.

(** ** The admission controller *)

Module ratelimit_facts.

Import ratelimit GoFacts log_levels_facts.

Lemma evictOldest_absent rl ip :
  requests rl !! ip = None -> requests (evictOldest rl) !! ip = None.
Proof.
  intros H. unfold evictOldest. case_match; [done |].
  cbn. by apply lookup_delete_None; right.
Qed.

Lemma evictOldest_at_capacity rl : len rl <= maxClients rl -> evictOldest rl = rl.
Proof.
  intros H. unfold evictOldest.
  destruct (Z.leb_spec (len rl) (maxClients rl)); [done | lia].
Qed.

Lemma evictOldest_params rl :
  window (evictOldest rl) = window rl /\ maxClients (evictOldest rl) = maxClients rl.
Proof. unfold evictOldest. by case_match. Qed.

(** The four branches of [allow]. *)

Lemma allow_untracked rl ip q now :
  requests rl !! ip = None ->
  allow rl ip q now =
    (opened (if maxClients rl <=? len rl then evictOldest rl else rl) ip now, (true, 0)).
Proof.
  intros H. unfold allow, exists_. rewrite H. cbn [negb andb].
  assert (Hn : requests (if maxClients rl <=? len rl then evictOldest rl else rl) !! ip = None).
  { case_match; [by apply evictOldest_absent | done]. }
  by rewrite Hn.
Qed.

Lemma allow_expired rl ip q now c :
  requests rl !! ip = Some c ->
  window rl < Sub now (firstSeen c) ->
  allow rl ip q now = (opened rl ip now, (true, 0)).
Proof.
  intros H Hexp. unfold allow, exists_. rewrite H. cbn [negb andb]. rewrite H.
  destruct (Z.ltb_spec (window rl) (Sub now (firstSeen c))); [done | lia].
Qed.

Lemma allow_denied rl ip q now c :
  requests rl !! ip = Some c ->
  Sub now (firstSeen c) <= window rl ->
  q <= count c ->
  allow rl ip q now =
    (inc_blockedTotal rl, (false, wrap64 (window rl - Sub now (firstSeen c)))).
Proof.
  intros H Hw Hq. unfold allow, exists_. rewrite H. cbn [negb andb]. rewrite H.
  destruct (Z.ltb_spec (window rl) (Sub now (firstSeen c))); [lia |].
  destruct (Z.leb_spec q (count c)); [done | lia].
Qed.

Lemma allow_counted rl ip q now c :
  requests rl !! ip = Some c ->
  Sub now (firstSeen c) <= window rl ->
  count c < q ->
  allow rl ip q now =
    (inc_requestsTotal
       (set_requests rl
          (<[ip := mkClientData (wrap64 (count c + 1)) (firstSeen c)]> (requests rl))),
     (true, 0)).
Proof.
  intros H Hw Hq. unfold allow, exists_. rewrite H. cbn [negb andb]. rewrite H.
  destruct (Z.ltb_spec (window rl) (Sub now (firstSeen c))); [lia |].
  destruct (Z.leb_spec q (count c)); [lia | done].
Qed.

(** A denial comes from the third branch only. *)
Lemma allow_denied_inv rl ip q now rl' d :
  allow rl ip q now = (rl', (false, d)) ->
  exists c, requests rl !! ip = Some c
            /\ Sub now (firstSeen c) <= window rl
            /\ q <= count c
            /\ rl' = inc_blockedTotal rl
            /\ d = wrap64 (window rl - Sub now (firstSeen c)).
Proof.
  intros H. destruct (requests rl !! ip) as [c |] eqn:Hc.
  - destruct (Z.lt_ge_cases (window rl) (Sub now (firstSeen c))) as [Hexp | Hw].
    + rewrite (allow_expired _ _ _ _ _ Hc Hexp) in H. discriminate.
    + destruct (Z.lt_ge_cases (count c) q) as [Hq | Hq].
      * rewrite (allow_counted _ _ _ _ _ Hc Hw Hq) in H. discriminate.
      * rewrite (allow_denied _ _ _ _ _ Hc Hw Hq) in H. inversion H. eauto 10.
  - rewrite (allow_untracked _ _ _ _ Hc) in H. discriminate.
Qed.

Lemma opened_lookup rl ip now :
  requests (opened rl ip now) !! ip = Some (mkClientData 1 now).
Proof. cbn. apply lookup_insert_eq. Qed.

Lemma opened_window rl ip now : window (opened rl ip now) = window rl.
Proof. reflexivity. Qed.

(** With the table exactly at capacity [evictOldest] returns at its
    guard, and the table grows past [maxClients]. *)
Lemma allow_at_capacity_grows rl ip q now :
  requests rl !! ip = None ->
  len rl = maxClients rl ->
  size (requests (fst (allow rl ip q now))) = S (size (requests rl)).
Proof.
  intros H Hcap. rewrite (allow_untracked _ _ _ _ H).
  rewrite evictOldest_at_capacity by lia.
  assert (Hsame : (if maxClients rl <=? len rl then rl else rl) = rl) by by case_match.
  rewrite Hsame. cbn. by apply map_size_insert_None.
Qed.

End ratelimit_facts.

Module ratelimit_spec.

Import ratelimit GoFacts log_levels_facts ratelimit_facts.

(** C1, the code at the input of [TestEviction_WhenMaxClientsExceeded]:
    a limiter built with maxClients = 2 receives one request from each
    of three distinct clients, at any three clock readings.  Every call
    is allowed, nothing is evicted, and three clients are tracked at the
    end: the table exceeds maxClients. *)
Theorem C1_three_clients_all_tracked (t1 t2 t3 : Z) :
  exists rl0,
    NewRateLimiterWithLevel 5 Minute 2 "INFO" None = Ok rl0
    /\ let '(rl1, r1) := AllowTest rl0 "1.1.1.1" 5 t1 in
       let '(rl2, r2) := AllowTest rl1 "2.2.2.2" 5 t2 in
       let '(rl3, r3) := AllowTest rl2 "3.3.3.3" 5 t3 in
       r1 = (true, 0) /\ r2 = (true, 0) /\ r3 = (true, 0)
       /\ evictOldest rl2 = rl2
       /\ size (requests rl3) = 3%nat
       /\ maxClients rl3 < len rl3
       /\ requests rl3 !! "1.1.1.1" = Some (mkClientData 1 t1).
Proof.
  eexists. split; [reflexivity |].
  vm_compute. repeat split; reflexivity.
Qed.

(** C3 (as the code has it): the constructor returns an error exactly
    when the baseline quota is outside 1..100000 or the window is not
    strictly positive; otherwise it returns a limiter with an empty
    table and the given configuration, whatever the number of tracked
    clients asked for. *)
Theorem C3_constructor_validation (mr w mc : Z) (ml : LogLevel)
    (pl : option (gmap LogLevel Z)) :
  (is_Err (NewRateLimiterWithLevel mr w mc ml pl) = true
     <-> (mr < 1 \/ 100000 < mr \/ w <= 0))
  /\ (is_Err (NewRateLimiterWithLevel mr w mc ml pl) = false
     <-> NewRateLimiterWithLevel mr w mc ml pl
         = Ok (mkRateLimiter ∅ mr mc w 0 0 0 ml pl)).
Proof.
  unfold NewRateLimiterWithLevel, utils.ValidateMaxRequests, utils.ValidateWindow.
  destruct (Z.ltb_spec mr 1); destruct (Z.ltb_spec 100000 mr);
    destruct (Z.leb_spec w 0); cbn; split; split; intros; try lia;
    try discriminate; try reflexivity.
Qed.

(** C3 as stated fails: zero tracked clients are accepted. *)
Lemma C3_zero_clients_accepted :
  ~ (is_Err (NewRateLimiterWithLevel 5 Second 0 "INFO" None) = true
     <-> (5 < 1 \/ 100000 < 5 \/ Second <= 0 \/ 0 <= 0)).
Proof.
  intros [_ H]. assert (Hc : 5 < 1 \/ 100000 < 5 \/ Second <= 0 \/ 0 <= 0) by lia.
  specialize (H Hc). vm_compute in H. discriminate.
Qed.

(** C8: for a tracked client whose window age exceeds the window
    duration, [allow] returns true and leaves the client with count 1
    and a window starting at the clock reading; so does a request
    through [Middleware] whose level is not below the minimum. *)
Theorem C8_expired_window_resets (rl : RateLimiter) (ip : string) (q now : Z)
    (c : clientData) :
  requests rl !! ip = Some c ->
  window rl < Sub now (firstSeen c) ->
  (exists rl', allow rl ip q now = (rl', (true, 0))
               /\ requests rl' !! ip = Some (mkClientData 1 now))
  /\ (forall r, clientIP r = ip ->
        LevelLessThan (NormalizeLogLevel (Header_Get (X_Log_Level r))) (minLevel rl) = false ->
        exists rl', Middleware rl r now = (rl', Next)
                    /\ requests rl' !! ip = Some (mkClientData 1 now)).
Proof.
  intros Hc Hexp. split.
  - exists (opened rl ip now). split; [by apply allow_expired with c |].
    apply opened_lookup.
  - intros r Hip Hlvl. exists (opened rl ip now). unfold Middleware.
    rewrite Hlvl, Hip.
    rewrite (allow_expired _ _ _ _ _ Hc Hexp). cbn [negb].
    split; [reflexivity | apply opened_lookup].
Qed.

Lemma C8_witness :
  exists rl', allow (mkRateLimiter {["10.0.0.1" := mkClientData 3 0]} 3 10 Second 3 0 1 "INFO" None)
                    "10.0.0.1" 3 (2 * Second) = (rl', (true, 0))
              /\ requests rl' !! "10.0.0.1" = Some (mkClientData 1 (2 * Second)).
Proof.
  apply (C8_expired_window_resets
           (mkRateLimiter {["10.0.0.1" := mkClientData 3 0]} 3 10 Second 3 0 1 "INFO" None)
           "10.0.0.1" 3 (2 * Second) (mkClientData 3 0)).
  - reflexivity.
  - vm_compute. reflexivity.
Defined.

(** C10: when the minimum level is strictly above TRACE, a request whose
    X-Log-Level header is missing, or is an ASCII text that does not
    normalize to one of the six levels, passes to the next handler and
    leaves the limiter as it was: no window is created or counted and
    no metric moves. *)
Theorem C10_unrecognized_level_bypasses (rl : RateLimiter) (r : Request) (now : Z) :
  is_ascii (Header_Get (X_Log_Level r)) = true ->
  LevelLessThan LogLevelTrace (minLevel rl) = true ->
  X_Log_Level r = None
    \/ NormalizeLogLevel (Header_Get (X_Log_Level r)) ∉ AllLogLevels ->
  Middleware rl r now = (rl, Next).
Proof.
  intros _ Hmin Hlvl.
  assert (Hun : NormalizeLogLevel (Header_Get (X_Log_Level r)) ∉ AllLogLevels).
  { destruct Hlvl as [-> | H]; [apply empty_unrecognized | done]. }
  unfold Middleware, LevelLessThan in *.
  rewrite (order_unrecognized _ Hun).
  change (order LogLevelTrace) with 0 in Hmin. by rewrite Hmin.
Qed.

Lemma C10_witness :
  Middleware (mkRateLimiter ∅ 5 10 Minute 0 0 0 "INFO" None)
             (mkRequest "10.0.0.1" None) 7
  = (mkRateLimiter ∅ 5 10 Minute 0 0 0 "INFO" None, Next).
Proof.
  apply C10_unrecognized_level_bypasses.
  - reflexivity.
  - vm_compute. reflexivity.
  - left. reflexivity.
Defined.







Lemma allow_denied_retry rl ip q now rl' d :
  0 < window rl <= MaxInt64 ->
  clock_sane rl ip now ->
  allow rl ip q now = (rl', (false, d)) ->
  exists c, requests rl !! ip = Some c
            /\ q <= count c
            /\ d = Z.max 0 (window rl - (now - firstSeen c))
            /\ 0 <= d.
Proof.
  intros Hw Hclock H.
  apply allow_denied_inv in H as (c & Hc & Hsub & Hq & _ & ->).
  specialize (Hclock c Hc). exists c.
  split; [exact Hc |]. split; [exact Hq |].
  pose proof (Sub_range now (firstSeen c)) as Hr.
  unfold Sub, in_int64, MinInt64, MaxInt64 in *.
  destruct (Z.ltb_spec (now - firstSeen c) (- 2 ^ 63)); [lia |].
  destruct (Z.ltb_spec (2 ^ 63 - 1) (now - firstSeen c)).
  - replace (window rl) with (2 ^ 63 - 1) by lia.
    rewrite Z.sub_diag. split; [| done]. rewrite Z.max_l by lia. reflexivity.
  - rewrite wrap64_id by (unfold in_int64, MinInt64, MaxInt64; lia).
    split; lia.
Qed.

Lemma retry_after_seconds_nonneg d : 0 <= retry_after_seconds d.
Proof.
  unfold retry_after_seconds.
  destruct (Z.ltb_spec (int_of_float64 (Seconds d)) 0); lia.
Qed.

Lemma retry_after_seconds_whole d :
  0 <= d < 2 ^ 24 * Second -> retry_after_seconds d = d / Second.
Proof.
  intros Hd. unfold retry_after_seconds.
  rewrite Float64Facts.Seconds_whole by exact Hd.
  assert (0 <= d / Second) by (apply Z.div_pos; unfold Second; lia).
  destruct (Z.ltb_spec (d / Second) 0); [lia | reflexivity].
Qed.

(** X26: when [Middleware] answers 429, [allow] has
    refused a tracked client, and the duration it returns is the window
    duration minus the time elapsed since the client's window start,
    floored at zero, so it is never negative.  The Retry-After header is
    never negative, and it is that duration rounded down to whole
    seconds when the duration is below 2^24 seconds. *)
Theorem Middleware_retry_after_below_2_24_seconds (rl : RateLimiter) (r : Request) (now : Z)
    (rl' : RateLimiter) (h : Z) :
  0 < window rl <= MaxInt64 ->
  clock_sane rl (clientIP r) now ->
  Middleware rl r now = (rl', TooManyRequests h) ->
  exists c d,
    requests rl !! clientIP r = Some c
    /\ allow rl (clientIP r)
             (maxReq_for rl (NormalizeLogLevel (Header_Get (X_Log_Level r)))) now
       = (rl', (false, d))
    /\ d = Z.max 0 (window rl - (now - firstSeen c))
    /\ 0 <= d
    /\ h = retry_after_seconds d
    /\ 0 <= h
    /\ (d < 2 ^ 24 * Second -> h = d / Second).
Proof.
  intros Hw Hclock H. unfold Middleware in H.
  destruct (LevelLessThan _ _); [discriminate |].
  destruct (allow _ _ _ _) as [rl1 [[|] d]] eqn:Hallow; cbn in H; [discriminate |].
  injection H as -> <-.
  destruct (allow_denied_retry _ _ _ _ _ _ Hw Hclock Hallow) as (c & Hc & _ & Hd & Hpos).
  exists c, d. repeat split; try assumption.
  - apply retry_after_seconds_nonneg.
  - intros Hlt. apply retry_after_seconds_whole. lia.
Qed.

(** The scenario of the specification: quota 2, window 1s; the third
    request, 0.4s into the window, is refused with 0.6s to wait. *)
Lemma Middleware_retry_after_below_2_24_seconds_witness :
  exists c d,
    requests (mkRateLimiter {["C" := mkClientData 2 0]} 2 10 Second 2 0 1 "INFO" None)
      !! "C" = Some c
    /\ d = Z.max 0 (Second - (400 * Millisecond - firstSeen c))
    /\ 0 <= d
    /\ 0 = d / Second.
Proof.
  destruct (Middleware_retry_after_below_2_24_seconds
              (mkRateLimiter {["C" := mkClientData 2 0]} 2 10 Second 2 0 1 "INFO" None)
              (mkRequest "C" (Some "INFO")) (400 * Millisecond)
              (mkRateLimiter {["C" := mkClientData 2 0]} 2 10 Second 2 1 1 "INFO" None)
              0)
    as (c & d & Hc & _ & Hd & Hpos & _ & _ & Hh).
  - vm_compute. split; [reflexivity | discriminate].
  - intros c Hc. vm_compute in Hc. injection Hc as <-. vm_compute. discriminate.
  - vm_compute. reflexivity.
  - exists c, d. repeat split; try assumption.
    apply Hh. vm_compute in Hc. injection Hc as <-. rewrite Hd. vm_compute. reflexivity.
Defined.

(** C7: the denial does not always communicate the duration rounded
    down to whole seconds.  With a window of 200 days, a client refused
    when 2^24 + 0.999999999 seconds of its window remain is given the
    duration the claim states, window minus elapsed time, but the header
    16777217, one second more than the whole seconds of that duration:
    [Duration.Seconds] rounds the sum to the nearest float64 before
    [int] truncates it. *)
Lemma C7_retry_after_rounded_up :
  exists rl0,
    NewRateLimiterWithLevel 1 (17280000 * Second) 10 "INFO" None = Ok rl0
    /\ let r := mkRequest "10.0.0.1" (Some "INFO") in
       let t0 := Minute in
       let now := t0 + 502783000000001 in
       let rl1 := fst (Middleware rl0 r t0) in
       requests rl1 !! "10.0.0.1" = Some (mkClientData 1 t0)
       /\ snd (allow rl1 "10.0.0.1" 1 now) = (false, 16777216999999999)
       /\ 16777216999999999 = window rl1 - (now - t0)
       /\ snd (Middleware rl1 r now) = TooManyRequests 16777217
       /\ 16777216999999999 / Second = 16777216.
Proof.
  eexists. split; [reflexivity |]. vm_compute. repeat split; reflexivity.
Qed.

End ratelimit_spec.

(** ** The store *)

Module logger_facts.

Import logger GoFacts log_levels_facts.

(** *** Order of timestamps *)

Lemma ts_ge_total r1 r2 : ts_ge r1 r2 \/ ts_ge r2 r1.
Proof. unfold ts_ge. destruct (String.leb_total (timestamp r2) (timestamp r1)); auto. Qed.

#[export] Instance ts_ge_trans : Transitive ts_ge.
Proof.
  intros r1 r2 r3 H12 H23. unfold ts_ge in *.
  apply Is_true_true. apply Is_true_true in H12, H23.
  exact (transitivity (R := String.le) H23 H12).
Qed.

Lemma ts_ge_not_leb r r' :
  String.leb (timestamp r') (timestamp r) = false -> ts_ge r' r.
Proof.
  intros H. destruct (ts_ge_total r r') as [H1 | H1]; [| done].
  unfold ts_ge in H1. congruence.
Qed.

(** *** The stable engine is an engine *)

Lemma insert_row_perm r l : Permutation (insert_row r l) (r :: l).
Proof.
  induction l as [| r' l IH]; cbn; [done |].
  case_match; [done |].
  rewrite IH. apply perm_swap.
Qed.

Lemma insert_row_HdRel a r l :
  ts_ge a r -> HdRel ts_ge a l -> HdRel ts_ge a (insert_row r l).
Proof.
  intros Har Hl. destruct l as [| r' l]; cbn; [by constructor |].
  case_match; constructor; [done |]. by inversion Hl.
Qed.

Lemma insert_row_sorted r l : Sorted ts_ge l -> Sorted ts_ge (insert_row r l).
Proof.
  induction l as [| r' l IH]; intros Hs; cbn.
  - repeat constructor.
  - destruct (String.leb (timestamp r') (timestamp r)) eqn:E.
    + constructor; [done |]. by constructor.
    + apply Sorted_inv in Hs as [Hs Hhd].
      constructor; [by apply IH |].
      apply insert_row_HdRel; [by apply ts_ge_not_leb | done].
Qed.

Lemma stable_engine_ok : engine_ok stable_order_by_timestamp.
Proof.
  intros rows. unfold stable_order_by_timestamp.
  induction rows as [| r rows [IHp IHs]]; cbn.
  - split; [done | constructor].
  - split.
    + rewrite insert_row_perm. by constructor.
    + by apply insert_row_sorted.
Qed.

(** *** Windows of a sorted list *)

Lemma StronglySorted_firstn {A} (R : relation A) n l :
  StronglySorted R l -> StronglySorted R (firstn n l).
Proof.
  intros H. rewrite <- (firstn_skipn n l) in H.
  by apply StronglySorted_app_1_l in H.
Qed.

Lemma StronglySorted_skipn {A} (R : relation A) n l :
  StronglySorted R l -> StronglySorted R (skipn n l).
Proof.
  intros H. rewrite <- (firstn_skipn n l) in H.
  by apply StronglySorted_app_1_r in H.
Qed.

Lemma sql_limit_firstn {A} n (l : list A) : 0 <= n -> sql_limit n l = firstn (Z.to_nat n) l.
Proof. intros H. unfold sql_limit. destruct (Z.ltb_spec n 0); [lia | done]. Qed.

(** *** The cleanup statement on a table with ascending ids *)

Lemma insert_desc_smallest x l :
  Forall (fun y => x < y) l -> insert_desc x l = l ++ [x].
Proof.
  induction l as [| y l IH]; intros H; cbn; [done |].
  pose proof (Forall_inv H) as Hy. apply Forall_inv_tail in H.
  cbn in Hy. destruct (Z.leb_spec y x); [lia |]. by rewrite IH.
Qed.

Lemma order_by_id_desc_ascending l :
  StronglySorted Z.lt l -> order_by_id_desc l = rev l.
Proof.
  unfold order_by_id_desc. induction 1 as [| x l Hs IH Hx]; cbn; [done |].
  rewrite IH. apply insert_desc_smallest.
  apply List.Forall_forall. intros y Hy. apply in_rev in Hy.
  rewrite List.Forall_forall in Hx. by apply Hx.
Qed.

Lemma filter_none {A} (f : A -> bool) l :
  Forall (fun x => f x = false) l -> List.filter f l = [].
Proof.
  induction 1 as [| x l Hx _ IH]; cbn; [done |]. by rewrite Hx.
Qed.

Lemma filter_all {A} (f : A -> bool) l :
  Forall (fun x => f x = true) l -> List.filter f l = l.
Proof.
  induction 1 as [| x l Hx _ IH]; cbn; [done |]. by rewrite Hx, IH.
Qed.

Lemma existsb_eqb_In (x : Z) (l : list Z) : existsb (Z.eqb x) l = true <-> In x l.
Proof.
  rewrite existsb_exists. split.
  - intros (y & Hy & E). apply Z.eqb_eq in E. by subst.
  - intros H. exists x. split; [done | apply Z.eqb_refl].
Qed.

(** The statement keeps the last [n] rows of the table. *)
Lemma GenerateCleanupQuery_newest n tbl :
  0 <= n -> ids_ascending tbl ->
  GenerateCleanupQuery n tbl = skipn (length tbl - Z.to_nat n) tbl.
Proof.
  intros Hn Hs. unfold GenerateCleanupQuery, newest_ids.
  rewrite sql_limit_firstn by done.
  rewrite (order_by_id_desc_ascending _ Hs).
  rewrite firstn_rev, length_map, skipn_map.
  set (k := (length tbl - Z.to_nat n)%nat).
  set (f := fun r => existsb (Z.eqb (id r)) (rev (map id (skipn k tbl)))).
  assert (Hs' : StronglySorted Z.lt (map id (firstn k tbl) ++ map id (skipn k tbl))).
  { rewrite <- map_app, firstn_skipn. exact Hs. }
  transitivity (List.filter f (firstn k tbl ++ skipn k tbl));
    [by rewrite firstn_skipn |].
  rewrite filter_app, filter_none, filter_all; [done | |].
  - apply List.Forall_forall. intros r Hr. apply existsb_eqb_In.
    apply (proj1 (in_rev _ _)). by apply in_map.
  - apply List.Forall_forall. intros r Hr. unfold f.
    destruct (existsb (Z.eqb (id r)) (rev (map id (skipn k tbl)))) eqn:E; [| done].
    apply existsb_eqb_In in E. apply (proj2 (in_rev _ _)) in E.
    apply (in_map id) in Hr.
    pose proof (StronglySorted_app_1_elem_of _ _ _ _ _ Hs'
                  (proj2 (list_elem_of_In _ _) Hr) (proj2 (list_elem_of_In _ _) E)).
    lia.
Qed.

End logger_facts.

Module logger_spec.

Import logger GoFacts log_levels_facts logger_facts.

Section StoreSpec.

Variable Time : Type.
Variable Format : Time -> string.
Variable SafeParseTimestamp : string -> Time.
Variable Ctx : Type.
Variable json_Marshal : Ctx -> result string.
Variable json_Unmarshal : string -> result Ctx.
Variable order_by_timestamp : list Row -> list Row.

Local Abbreviation Entry := (LogEntry Time Ctx).
Local Abbreviation Write := (Write Time Format Ctx json_Marshal).
Local Abbreviation row_of := (row_of Time Format Ctx json_Marshal).
Local Abbreviation QueryLogs_rows := (QueryLogs_rows order_by_timestamp).
Local Abbreviation QueryLogs :=
  (QueryLogs Time SafeParseTimestamp Ctx json_Unmarshal order_by_timestamp).
Local Abbreviation scan_row := (scan_row Time SafeParseTimestamp Ctx json_Unmarshal).
Local Abbreviation appends := (appends Time Format Ctx json_Marshal).
Local Abbreviation rows_from := (rows_from Time Format Ctx json_Marshal).
Local Abbreviation accepted := (accepted Time Ctx).

Lemma NewSQLiteLogger_ok n ml : store_ok (NewSQLiteLogger n ml).
Proof. split; cbn; constructor. Qed.

Lemma ids_ascending_snoc tbl r :
  ids_ascending tbl -> Forall (fun r' => id r' < id r) tbl ->
  ids_ascending (tbl ++ [r]).
Proof.
  unfold ids_ascending. intros Hs Hlt. rewrite map_app. cbn.
  apply StronglySorted_app_2; [| done | repeat constructor].
  intros x y Hx Hy. apply list_elem_of_In in Hx, Hy.
  destruct Hy as [<- | []]. apply in_map_iff in Hx as (r' & <- & Hr').
  rewrite List.Forall_forall in Hlt. by apply Hlt.
Qed.

Lemma Write_ok l e exec : store_ok l -> store_ok (fst (Write l e exec)).
Proof.
  intros [Hs Hle]. unfold logger.Write.
  repeat case_match; cbn; try (split; assumption).
  split; cbn.
  - apply ids_ascending_snoc; [done |].
    eapply List.Forall_impl; [| exact Hle]. cbn. intros. lia.
  - apply List.Forall_app. split.
    + eapply List.Forall_impl; [| exact Hle]. cbn. intros. lia.
    + repeat constructor. cbn. lia.
Qed.

Lemma Write_accepted l e :
  reaches_insert Time Ctx l e = true ->
  Write l e None = (set_logs l (logs l ++ [row_of (seq l + 1) e]) (seq l + 1), None).
Proof.
  unfold reaches_insert, logger.Write. intros H.
  apply andb_true_iff in H as [Hv Hm]. rewrite Hv. cbn.
  apply negb_true_iff in Hm. by rewrite Hm.
Qed.

Lemma appends_ok l es : store_ok l -> store_ok (appends l es).
Proof.
  revert l. induction es as [| e es IH]; intros l H; cbn; [done |].
  apply IH. by apply Write_ok.
Qed.

Lemma appends_logs es :
  forall l,
    Forall (fun e => reaches_insert Time Ctx l e = true) es ->
    logs (appends l es) = logs l ++ rows_from (seq l) es
    /\ maxRows (appends l es) = maxRows l
    /\ seq (appends l es) = seq l + Z.of_nat (length es).
Proof.
  induction es as [| e es IH]; intros l H; cbn [appends rows_from].
  - rewrite app_nil_r. cbn. repeat split; lia.
  - pose proof (Forall_inv H) as He. apply Forall_inv_tail in H. cbn in He.
    rewrite (Write_accepted _ _ He). cbn [fst].
    destruct (IH (set_logs l (logs l ++ [row_of (seq l + 1) e]) (seq l + 1)))
      as (Hl & Hm & Hs).
    { eapply List.Forall_impl; [| exact H]. intros e'. by unfold reaches_insert. }
    rewrite Hl, Hm, Hs. cbn. rewrite <- app_assoc. cbn.
    repeat split; lia.
Qed.

Lemma rows_from_length s es : length (rows_from s es) = length es.
Proof. revert s. induction es as [| e es IH]; intros s; cbn; [done |]. by rewrite IH. Qed.

Lemma rows_from_skipn k es :
  forall s, skipn k (rows_from s es) = rows_from (s + Z.of_nat k) (skipn k es).
Proof.
  revert es. induction k as [| k IH]; intros es s.
  - cbn. by rewrite Z.add_0_r.
  - destruct es as [| e es]; cbn [skipn rows_from]; [done |].
    rewrite IH. f_equal. lia.
Qed.

(** One run of [cleanup] on a store that satisfies the invariant. *)
Lemma cleanup_newest l :
  store_ok l -> 0 < maxRows l ->
  cleanup l None
  = (set_logs l (skipn (length (logs l) - Z.to_nat (maxRows l)) (logs l)) (seq l), None).
Proof.
  intros [Hs _] Hn. unfold cleanup.
  destruct (Z.leb_spec (maxRows l) 0); [lia |].
  rewrite GenerateCleanupQuery_newest by (done || lia). done.
Qed.

Lemma ids_ascending_filter f tbl :
  ids_ascending tbl -> ids_ascending (List.filter f tbl).
Proof.
  unfold ids_ascending. induction tbl as [| r tbl IH]; cbn; [done |].
  intros H. apply StronglySorted_inv in H as [Hs Hr].
  destruct (f r); cbn; [| by apply IH].
  constructor; [by apply IH |].
  rewrite List.Forall_forall in Hr |- *. intros x Hx. apply Hr.
  apply in_map_iff in Hx as (r' & <- & Hr'). apply in_map.
  by apply filter_In in Hr' as [? _].
Qed.

(** The invariant is kept by [cleanup] as well. *)
Lemma cleanup_ok l exec : store_ok l -> store_ok (fst (cleanup l exec)).
Proof.
  intros [Hs Hle]. unfold cleanup.
  destruct (maxRows l <=? 0); [done |]. destruct exec; [done |].
  split; cbn; [by apply ids_ascending_filter |].
  rewrite List.Forall_forall in Hle |- *. intros r Hr. apply Hle.
  by apply filter_In in Hr as [? _].
Qed.

(** [QueryLogs] returns rows whenever the limit is at most 1000, the
    level filter is empty or valid, and the driver does not fail. *)
Lemma QueryLogs_rows_total l lvl page limit :
  limit <= 1000 ->
  lvl = EmptyString \/ IsValidLogLevel lvl = true ->
  exists rows, QueryLogs_rows l lvl page limit None = Ok rows.
Proof.
  intros Hlim Hlvl. unfold logger.QueryLogs_rows, query_args, utils.ValidatePageLimit.
  assert (Hbig : (1000 <? (if limit <? 1 then 10 else limit)) = false).
  { destruct (Z.ltb_spec limit 1); apply Z.ltb_ge; lia. }
  rewrite Hbig.
  assert (Hf : negb (lvl =? "")%string && negb (IsValidLogLevel lvl) = false).
  { destruct Hlvl as [-> | ->]; [reflexivity | apply andb_false_r]. }
  rewrite Hf. eauto.
Qed.

Lemma reaches_insert_spec l (e : Entry) :
  reaches_insert Time Ctx l e = true
  <-> NormalizeLogLevel (Level _ _ e) ∈ AllLogLevels
      /\ LevelLessThan (NormalizeLogLevel (Level _ _ e)) (minLevel l) = false.
Proof.
  unfold reaches_insert. rewrite andb_true_iff, negb_true_iff.
  by rewrite IsValidLogLevel_Normalize.
Qed.

(** C6: for an entry whose level is an ASCII text, [Write] returns an
    error exactly when the normalized level is
    not one of the six levels, or the call reaches the insert statement
    and the statement fails.  A recognized level below the minimum
    gives [nil] and leaves the logger, its table included, as it was.
    When the context cannot be serialized and the insert succeeds, the
    row is inserted with the document [{}] as its context. *)
Theorem C6_append_outcomes (l : SQLiteLogger) (e : Entry) (exec : option string) :
  is_ascii (Level _ _ e) = true ->
  (is_Some (snd (Write l e exec))
   <-> NormalizeLogLevel (Level _ _ e) ∉ AllLogLevels
       \/ (reaches_insert Time Ctx l e = true /\ is_Some exec))
  /\ (NormalizeLogLevel (Level _ _ e) ∈ AllLogLevels ->
      LevelLessThan (NormalizeLogLevel (Level _ _ e)) (minLevel l) = true ->
      Write l e exec = (l, None))
  /\ (forall c,
        reaches_insert Time Ctx l e = true ->
        Context_ _ _ e = Some c ->
        is_Err (json_Marshal c) = true ->
        Write l e None
        = (set_logs l
             (logs l ++ [mkRow (seq l + 1) (NormalizeLogLevel (Level _ _ e))
                               (Message _ _ e) (Format (Timestamp _ _ e))
                               (Some "{}")])
             (seq l + 1),
           None)).
Proof.
  intros _. split; [| split].
  - pose proof (IsValidLogLevel_Normalize (Level _ _ e)) as Hrec.
    unfold logger.Write, reaches_insert.
    destruct (IsValidLogLevel (NormalizeLogLevel (Level _ _ e))) eqn:Hv;
      destruct (LevelLessThan _ _) eqn:Hm; destruct exec as [err |]; cbn;
      (split; [intros Hs | intros [Hn | [Hr Hs]]]);
      try (destruct Hs as [? Hs]; discriminate);
      try discriminate;
      try (exfalso; apply Hn, Hrec; reflexivity);
      try (left; intros Hin; apply Hrec in Hin; discriminate);
      try (right; split; [reflexivity | eauto]);
      eauto.
  - intros Hin Hlow. apply IsValidLogLevel_Normalize in Hin.
    unfold logger.Write. by rewrite Hin, Hlow.
  - intros c Hr Hc Herr. rewrite (Write_accepted _ _ Hr).
    unfold logger.row_of, MarshalContext. rewrite Hc.
    by destruct (json_Marshal c).
Qed.

(** C9: a limit above 1000 makes [QueryLogs] return the error
    [limit too large] whatever the table, the engine and the driver do,
    so no row is read; a page or a limit below 1 is replaced by 1 or by
    10 and the query goes on as if that value had been given.  So the
    limit 1001 is refused and the limit 0 stands for 10. *)
Theorem C9_limit_checked_before_reading (l : SQLiteLogger) (lvl : LogLevel)
    (page limit : Z) (query : option string) :
  (1000 < limit ->
     QueryLogs_rows l lvl page limit query = Err "limit too large"
     /\ QueryLogs l lvl page limit query = Err "limit too large")
  /\ (limit <= 1000 ->
     utils.ValidatePageLimit page limit
       = Ok (if page <? 1 then 1 else page, if limit <? 1 then 10 else limit)
     /\ QueryLogs l lvl page limit query
       = QueryLogs l lvl (if page <? 1 then 1 else page)
                         (if limit <? 1 then 10 else limit) query)
  /\ QueryLogs l lvl page 1001 query = Err "limit too large"
  /\ QueryLogs l lvl page 0 query = QueryLogs l lvl page 10 query
  /\ is_Err (utils.ValidatePageLimit page 0) = false.
Proof.
  assert (Hbig : forall lim, 1000 < lim ->
            logger.QueryLogs_rows order_by_timestamp l lvl page lim query
              = Err "limit too large").
  { intros lim H. unfold logger.QueryLogs_rows, query_args, utils.ValidatePageLimit.
    destruct (Z.ltb_spec lim 1); [lia |].
    destruct (Z.ltb_spec 1000 lim); [done | lia]. }
  assert (Hsmall : forall pg lim, lim <= 1000 ->
            utils.ValidatePageLimit pg lim
              = Ok (if pg <? 1 then 1 else pg, if lim <? 1 then 10 else lim)).
  { intros pg lim H. unfold utils.ValidatePageLimit.
    destruct (Z.ltb_spec lim 1).
    - destruct (Z.ltb_spec 1000 10); [lia | done].
    - destruct (Z.ltb_spec 1000 lim); [lia | done]. }
  split; [| split; [| split; [| split]]].
  - intros H. split; [by apply Hbig |].
    unfold logger.QueryLogs. by rewrite Hbig.
  - intros H. split; [by apply Hsmall |].
    unfold logger.QueryLogs, logger.QueryLogs_rows, query_args.
    rewrite (Hsmall page limit H).
    rewrite Hsmall by (case_match; lia).
    destruct (limit <? 1) eqn:El; destruct (page <? 1) eqn:Ep; cbn [Z.ltb Z.compare];
      rewrite ?El, ?Ep; reflexivity.
  - unfold logger.QueryLogs. rewrite Hbig by lia. done.
  - unfold logger.QueryLogs, logger.QueryLogs_rows, query_args.
    rewrite !Hsmall by lia. done.
  - by rewrite Hsmall by lia.
Qed.

(** C5: on a store that satisfies the invariant and has a positive
    row bound, one run of [cleanup] whose statement executes leaves
    exactly the last [maxRows] rows in insertion order, whatever their
    timestamps.  With maxRows = 5, after ten appends that reach the
    table and one run of [cleanup], [QueryLogs] with no level filter,
    page 1 and limit 20 returns at most five rows: the rows of the last
    five appends, in the order the engine gives them. *)
Theorem C5_retention_keeps_newest (l : SQLiteLogger) (ml : LogLevel)
    (es : list Entry) :
  store_ok l -> 0 < maxRows l ->
  engine_ok order_by_timestamp ->
  length es = 10%nat -> Forall (accepted ml) es ->
  cleanup l None
    = (set_logs l (skipn (length (logs l) - Z.to_nat (maxRows l)) (logs l)) (seq l),
       None)
  /\ let l10 := appends (NewSQLiteLogger 5 ml) es in
     let swept := fst (cleanup l10 None) in
     logs l10 = rows_from 0 es
     /\ logs swept = rows_from 5 (skipn 5 es)
     /\ exists rows,
          QueryLogs_rows swept EmptyString 1 20 None = Ok rows
          /\ QueryLogs swept EmptyString 1 20 None = Ok (map scan_row rows)
          /\ (length rows <= 5)%nat
          /\ Permutation rows (rows_from 5 (skipn 5 es)).
Proof.
  intros Hok Hn Heng Hlen Hacc. split; [by apply cleanup_newest |].
  cbn zeta.
  destruct (appends_logs es (NewSQLiteLogger 5 ml)) as (Hlogs & Hmax & Hseq).
  { exact Hacc. }
  cbn [logs seq maxRows NewSQLiteLogger app] in Hlogs, Hmax, Hseq.
  assert (Hok10 : store_ok (appends (NewSQLiteLogger 5 ml) es)).
  { apply appends_ok, NewSQLiteLogger_ok. }
  rewrite (cleanup_newest _ Hok10) by lia.
  cbn [fst logs set_logs]. rewrite Hlogs, Hmax, rows_from_length, Hlen.
  change (10 - Z.to_nat 5)%nat with 5%nat.
  rewrite rows_from_skipn. change (0 + Z.of_nat 5) with 5.
  split; [done |]. split; [done |].
  set (kept := rows_from 5 (skipn 5 es)).
  assert (Hkept : length kept = 5%nat).
  { unfold kept. rewrite rows_from_length, length_skipn. lia. }
  destruct (Heng kept) as [Hperm _].
  assert (Hsel : logger.QueryLogs_rows order_by_timestamp
                   (set_logs (appends (NewSQLiteLogger 5 ml) es) kept
                             (seq (appends (NewSQLiteLogger 5 ml) es)))
                   EmptyString 1 20 None
                 = Ok (order_by_timestamp kept)).
  { unfold logger.QueryLogs_rows, query_args. cbn. unfold select_logs.
    cbn. f_equal. apply firstn_all2.
    rewrite (Permutation_length Hperm). lia. }
  exists (order_by_timestamp kept). split; [exact Hsel |].
  split; [unfold logger.QueryLogs; by rewrite Hsel |].
  split; [rewrite (Permutation_length Hperm); lia | done].
Qed.

(** C2 (as the code has it): the rows [QueryLogs] returns are a window
    of the rows that match the level filter, put in descending order of
    their stored timestamp texts; rows with equal timestamps stand in
    the order the engine chooses.  The window has at most [limit] rows
    and starts at the offset the 64-bit product (page-1)*limit gives,
    which is that product itself when it fits an [int].  [page] and
    [limit] are the values after defaulting. *)
Theorem C2_query_order_and_window (l : SQLiteLogger) (lvl : LogLevel)
    (page limit : Z) (rows : list Row) :
  engine_ok order_by_timestamp ->
  QueryLogs_rows l lvl page limit None = Ok rows ->
  let page' := if page <? 1 then 1 else page in
  let limit' := if limit <? 1 then 10 else limit in
  let offset := wrap64 ((page' - 1) * limit') in
  StronglySorted ts_ge rows
  /\ (exists sorted,
        Permutation sorted (where_level lvl (logs l))
        /\ StronglySorted ts_ge sorted
        /\ rows = firstn (Z.to_nat limit') (skipn (Z.to_nat offset) sorted))
  /\ Z.of_nat (length rows) <= limit'
  /\ ((page' - 1) * limit' <= MaxInt64 -> offset = (page' - 1) * limit')
  /\ QueryLogs l lvl page limit None = Ok (map scan_row rows).
Proof.
  intros Heng Hq. cbn zeta.
  unfold logger.QueryLogs. rewrite Hq.
  unfold logger.QueryLogs_rows, query_args, utils.ValidatePageLimit in Hq.
  set (page' := if page <? 1 then 1 else page) in *.
  set (limit' := if limit <? 1 then 10 else limit) in *.
  assert (Hp : 1 <= page') by (unfold page'; destruct (Z.ltb_spec page 1); lia).
  assert (Hl : 1 <= limit') by (unfold limit'; destruct (Z.ltb_spec limit 1); lia).
  destruct (1000 <? limit') eqn:Hbig; [discriminate |].
  destruct (negb (lvl =? "")%string && negb (IsValidLogLevel lvl)); [discriminate |].
  injection Hq as <-. unfold select_logs.
  rewrite sql_limit_firstn by lia. unfold sql_offset.
  destruct (Heng (where_level lvl (logs l))) as [Hperm Hsorted].
  apply Sorted_StronglySorted in Hsorted; [| apply ts_ge_trans].
  split; [by apply StronglySorted_firstn, StronglySorted_skipn |].
  split; [eauto |].
  split.
  - pose proof (firstn_le_length (Z.to_nat limit')
                  (skipn (Z.to_nat (wrap64 ((page' - 1) * limit')))
                         (order_by_timestamp (where_level lvl (logs l))))).
    lia.
  - split; [| done]. intros Hfit. apply wrap64_id.
    assert (0 <= (page' - 1) * limit') by (apply Z.mul_nonneg_nonneg; lia).
    unfold in_int64, MinInt64. split; [lia | done].
Qed.

End StoreSpec.

(** C6 in the sample world: an entry whose context cannot be
    serialized, and a driver that refuses the insert. *)
Lemma C6_witness :
  (is_Some (snd (sample.Write sample.one_row sample.bad_context (Some "database is locked")))
   <-> NormalizeLogLevel (Level _ _ sample.bad_context) ∉ AllLogLevels
       \/ (reaches_insert sample.Time sample.Ctx sample.one_row sample.bad_context = true
           /\ is_Some (Some "database is locked")))
  /\ (NormalizeLogLevel (Level _ _ sample.bad_context) ∈ AllLogLevels ->
      LevelLessThan (NormalizeLogLevel (Level _ _ sample.bad_context))
                    (minLevel sample.one_row) = true ->
      sample.Write sample.one_row sample.bad_context (Some "database is locked")
      = (sample.one_row, None))
  /\ (forall c,
        reaches_insert sample.Time sample.Ctx sample.one_row sample.bad_context = true ->
        Context_ _ _ sample.bad_context = Some c ->
        is_Err (sample.json_Marshal c) = true ->
        sample.Write sample.one_row sample.bad_context None
        = (set_logs sample.one_row
             (logs sample.one_row
                ++ [mkRow (seq sample.one_row + 1)
                          (NormalizeLogLevel (Level _ _ sample.bad_context))
                          (Message _ _ sample.bad_context)
                          (sample.Format (Timestamp _ _ sample.bad_context))
                          (Some "{}")])
             (seq sample.one_row + 1),
           None)).
Proof.
  apply (C6_append_outcomes sample.Time sample.Format sample.Ctx sample.json_Marshal
           sample.one_row sample.bad_context (Some "database is locked")).
  reflexivity.
Defined.

(** The scenario of C5 in the sample world, with timestamps that run
    against the insertion order. *)
Lemma C5_witness :
  exists rows,
    sample.QueryLogs_rows
      (fst (cleanup (appends sample.Time sample.Format sample.Ctx sample.json_Marshal
                       (NewSQLiteLogger 5 "DEBUG") sample.ten_entries) None))
      EmptyString 1 20 None = Ok rows
    /\ Permutation (map message rows) ["log 5"; "log 6"; "log 7"; "log 8"; "log 9"].
Proof.
  pose proof (C5_retention_keeps_newest
                sample.Time sample.Format sample.SafeParseTimestamp sample.Ctx
                sample.json_Marshal sample.json_Unmarshal stable_order_by_timestamp
                (NewSQLiteLogger 5 "DEBUG") "DEBUG" sample.ten_entries
                (NewSQLiteLogger_ok 5 "DEBUG") ltac:(cbn; lia) stable_engine_ok
                eq_refl ltac:(repeat constructor)) as (_ & _ & _ & rows & Hq & _ & _ & Hperm).
  exists rows. split; [exact Hq |].
  apply (Permutation_map message) in Hperm. exact Hperm.
Defined.

(** A query on a table of three rows, in the sample world. *)
Lemma C2_witness :
  StronglySorted ts_ge
    [mkRow 2 "INFO" "b" "2025-08-06T14:12:05Z" (Some EmptyString);
     mkRow 1 "INFO" "a" "2025-08-06T14:12:00Z" (Some EmptyString)].
Proof.
  apply (C2_query_order_and_window
           sample.Time sample.SafeParseTimestamp sample.Ctx sample.json_Unmarshal
           stable_order_by_timestamp
           (appends sample.Time sample.Format sample.Ctx sample.json_Marshal
              (NewSQLiteLogger 0 "DEBUG")
              [sample.entry "info" "a" "2025-08-06T14:12:00Z";
               sample.entry "info" "b" "2025-08-06T14:12:05Z";
               sample.entry "warn" "c" "2025-08-06T14:12:09Z"])
           "INFO" 0 0 _ stable_engine_ok eq_refl).
Defined.

(** C2 as stated fails: two rows of one level with equal timestamps
    come back in the order of their insertion, the older id first, from
    an engine that meets the query. *)
Lemma C2_equal_timestamps_keep_insertion_order :
  engine_ok stable_order_by_timestamp
  /\ exists l,
       l = appends sample.Time sample.Format sample.Ctx sample.json_Marshal
             (NewSQLiteLogger 0 "DEBUG")
             [sample.entry "INFO" "first" "2025-08-06T14:12:00Z";
              sample.entry "INFO" "second" "2025-08-06T14:12:00Z"]
       /\ sample.QueryLogs_rows l "INFO" 1 10 None
          = Ok [mkRow 1 "INFO" "first" "2025-08-06T14:12:00Z" (Some EmptyString);
                mkRow 2 "INFO" "second" "2025-08-06T14:12:00Z" (Some EmptyString)].
Proof.
  split; [apply stable_engine_ok |].
  eexists. split; [reflexivity |]. vm_compute. reflexivity.
Qed.

End logger_spec.

(** ** The rate limiter: further properties *)

Module ratelimit_props.
Import Go log_levels ratelimit GoFacts log_levels_facts ratelimit_facts.

(** The scan of [evictOldest]. *)

Lemma oldest_fold_from l acc :
  fold_left oldest_step l acc = acc
  \/ exists c, (fst (fold_left oldest_step l acc), c) ∈ l
               /\ snd (fold_left oldest_step l acc) = firstSeen c.
Proof.
  revert acc. induction l as [| [ip c] l IH]; intros [oip ot]; cbn [fold_left]; [by left |].
  destruct (IH (oldest_step (oip, ot) (ip, c))) as [E | (c' & Hin & Hs)].
  - rewrite E. unfold oldest_step.
    destruct (IsZero ot || Before (firstSeen c) ot); [| by left].
    right. exists c. cbn. split; [apply list_elem_of_here | done].
  - right. exists c'. split; [by apply list_elem_of_further | done].
Qed.

Lemma oldest_scan_cons ip c l :
  oldest_scan ((ip, c) :: l) = fold_left oldest_step l (ip, firstSeen c).
Proof. reflexivity. Qed.

Lemma oldest_scan_In l :
  l <> [] ->
  exists c, (fst (oldest_scan l), c) ∈ l /\ snd (oldest_scan l) = firstSeen c.
Proof.
  destruct l as [| [ip c] l]; [done | intros _].
  rewrite oldest_scan_cons.
  destruct (oldest_fold_from l (ip, firstSeen c)) as [E | (c' & Hin & Hs)].
  - rewrite E. exists c. split; [apply list_elem_of_here | done].
  - exists c'. split; [by apply list_elem_of_further | done].
Qed.

Lemma oldest_fold_min l acc :
  snd acc <> 0 ->
  (forall kv, kv ∈ l -> firstSeen (snd kv) <> 0) ->
  snd (fold_left oldest_step l acc) <= snd acc
  /\ forall kv, kv ∈ l -> snd (fold_left oldest_step l acc) <= firstSeen (snd kv).
Proof.
  revert acc. induction l as [| [ip c] l IH]; intros [oip ot] Hacc Hnz; cbn [fold_left].
  - split; [lia |]. intros kv Hkv. by apply elem_of_nil in Hkv.
  - cbn [snd] in Hacc.
    assert (Hc : firstSeen c <> 0) by apply (Hnz (ip, c)), list_elem_of_here.
    assert (Hl : forall kv, kv ∈ l -> firstSeen (snd kv) <> 0).
    { intros kv Hkv. by apply Hnz, list_elem_of_further. }
    assert (Hstep : snd (oldest_step (oip, ot) (ip, c)) <> 0
                    /\ snd (oldest_step (oip, ot) (ip, c)) <= ot
                    /\ snd (oldest_step (oip, ot) (ip, c)) <= firstSeen c).
    { unfold oldest_step, IsZero, Before.
      destruct (Z.eqb_spec ot 0); [done |]. cbn [orb].
      destruct (Z.ltb_spec (firstSeen c) ot); cbn [snd]; lia. }
    destruct Hstep as (Hs0 & Hs1 & Hs2).
    destruct (IH _ Hs0 Hl) as [IH1 IH2].
    split; [cbn [snd]; lia |].
    intros kv Hkv. apply elem_of_cons in Hkv as [-> | Hkv]; [cbn [snd]; lia | by apply IH2].
Qed.

Lemma oldest_scan_min l :
  (forall kv, kv ∈ l -> firstSeen (snd kv) <> 0) ->
  forall kv, kv ∈ l -> snd (oldest_scan l) <= firstSeen (snd kv).
Proof.
  destruct l as [| [ip c] l]; intros Hnz kv Hkv; [by apply elem_of_nil in Hkv |].
  rewrite oldest_scan_cons.
  assert (Hc : firstSeen c <> 0) by apply (Hnz (ip, c)), list_elem_of_here.
  destruct (oldest_fold_min l (ip, firstSeen c) Hc) as [H1 H2].
  { intros kv' Hkv'. by apply Hnz, list_elem_of_further. }
  apply elem_of_cons in Hkv as [-> | Hkv]; [exact H1 | by apply H2].
Qed.

(** Over capacity, [evictOldest] deletes a tracked client. *)
Lemma evictOldest_over rl :
  0 <= maxClients rl -> maxClients rl < len rl ->
  exists ip c, requests rl !! ip = Some c
               /\ snd (oldest_scan (map_to_list (requests rl))) = firstSeen c
               /\ evictOldest rl = set_requests rl (delete ip (requests rl)).
Proof.
  intros H0 Hover. unfold evictOldest.
  destruct (Z.leb_spec (len rl) (maxClients rl)); [lia |].
  destruct (oldest_scan_In (map_to_list (requests rl))) as (c & Hin & Hs).
  { intros E. apply map_to_list_empty_iff in E. unfold len in Hover.
    rewrite E, map_size_empty in Hover. lia. }
  exists (fst (oldest_scan (map_to_list (requests rl)))), c.
  split; [by apply elem_of_map_to_list |]. done.
Qed.

Lemma evictOldest_size rl :
  0 <= maxClients rl -> maxClients rl < len rl ->
  len (evictOldest rl) = len rl - 1.
Proof.
  intros H0 Hover. destruct (evictOldest_over rl H0 Hover) as (ip & c & Hc & _ & ->).
  unfold len. cbn. rewrite map_size_delete_Some by by rewrite Hc.
  assert (size (requests rl) <> 0%nat).
  { intros E. apply map_size_empty_iff in E. rewrite E in Hc. by rewrite lookup_empty in Hc. }
  lia.
Qed.

Lemma evictOldest_subseteq rl : requests (evictOldest rl) ⊆ requests rl.
Proof. unfold evictOldest. case_match; [done |]. cbn. apply delete_subseteq. Qed.

(** What a call of [allow] leaves as it is. *)

Lemma allow_params rl ip q now :
  maxClients (fst (allow rl ip q now)) = maxClients rl
  /\ window (fst (allow rl ip q now)) = window rl
  /\ minLevel (fst (allow rl ip q now)) = minLevel rl
  /\ perLevelLimits (fst (allow rl ip q now)) = perLevelLimits rl
  /\ maxRequests (fst (allow rl ip q now)) = maxRequests rl.
Proof.
  unfold allow.
  assert (He : forall b : bool, maxClients (if b then evictOldest rl else rl) = maxClients rl
       /\ window (if b then evictOldest rl else rl) = window rl
       /\ minLevel (if b then evictOldest rl else rl) = minLevel rl
       /\ perLevelLimits (if b then evictOldest rl else rl) = perLevelLimits rl
       /\ maxRequests (if b then evictOldest rl else rl) = maxRequests rl).
  { intros []; [| done]. unfold evictOldest. by case_match. }
  specialize (He (negb (exists_ rl ip) && (maxClients rl <=? len rl))).
  destruct (requests _ !! ip) as [c |]; [| exact He].
  repeat case_match; exact He.
Qed.

Lemma allow_len_tracked rl ip q now c :
  requests rl !! ip = Some c -> len (fst (allow rl ip q now)) = len rl.
Proof.
  intros Hc.
  assert (Hi : forall x, size (<[ip := x]> (requests rl)) = size (requests rl)).
  { intros x. apply map_size_insert_Some. by rewrite Hc. }
  destruct (Z.lt_ge_cases (window rl) (Sub now (firstSeen c))) as [Hexp | Hw].
  - rewrite (allow_expired _ _ _ _ _ Hc Hexp). unfold len. cbn. by rewrite Hi.
  - destruct (Z.lt_ge_cases (count c) q) as [Hq | Hq].
    + rewrite (allow_counted _ _ _ _ _ Hc Hw Hq). unfold len. cbn. by rewrite Hi.
    + by rewrite (allow_denied _ _ _ _ _ Hc Hw Hq).
Qed.

Lemma opened_len rl ip now :
  requests rl !! ip = None -> len (opened rl ip now) = len rl + 1.
Proof.
  intros H. unfold len. cbn. rewrite map_size_insert_None by done. lia.
Qed.

Lemma allow_len_bound rl ip q now :
  0 <= maxClients rl -> len rl <= maxClients rl + 1 ->
  len (fst (allow rl ip q now)) <= maxClients rl + 1.
Proof.
  intros H0 Hb. destruct (requests rl !! ip) as [c |] eqn:Hc.
  - rewrite (allow_len_tracked _ _ _ _ _ Hc). done.
  - rewrite (allow_untracked _ _ _ _ Hc). cbn [fst].
    destruct (Z.leb_spec (maxClients rl) (len rl)).
    + rewrite opened_len by by apply evictOldest_absent.
      destruct (Z.le_gt_cases (len rl) (maxClients rl)).
      * rewrite evictOldest_at_capacity by done. lia.
      * rewrite evictOldest_size by lia. lia.
    + rewrite opened_len by done. lia.
Qed.

Lemma allow_gauge rl ip q now :
  activeClients rl = len rl ->
  activeClients (fst (allow rl ip q now)) = len (fst (allow rl ip q now)).
Proof.
  intros Hg. destruct (requests rl !! ip) as [c |] eqn:Hc.
  - destruct (Z.lt_ge_cases (window rl) (Sub now (firstSeen c))) as [Hexp | Hw].
    + by rewrite (allow_expired _ _ _ _ _ Hc Hexp).
    + destruct (Z.lt_ge_cases (count c) q) as [Hq | Hq].
      * rewrite (allow_counted _ _ _ _ _ Hc Hw Hq). unfold len. cbn.
        rewrite map_size_insert_Some by by rewrite Hc. exact Hg.
      * by rewrite (allow_denied _ _ _ _ _ Hc Hw Hq).
  - by rewrite (allow_untracked _ _ _ _ Hc).
Qed.

(** A call of [Middleware] leaves the limiter as it is or is a call of
    [allow]. *)
Lemma Middleware_fst rl r now :
  fst (Middleware rl r now) = rl
  \/ exists q, fst (Middleware rl r now) = fst (allow rl (clientIP r) q now).
Proof.
  unfold Middleware. case_match; [by left |]. right.
  exists (maxReq_for rl (NormalizeLogLevel (Header_Get (X_Log_Level r)))).
  destruct (allow _ _ _ _) as [rl' [[] d]]; reflexivity.
Qed.

Lemma serve_cons rl r now reqs :
  serve rl ((r, now) :: reqs) =
    (fst (serve (fst (Middleware rl r now)) reqs),
     snd (Middleware rl r now) :: snd (serve (fst (Middleware rl r now)) reqs)).
Proof.
  cbn [serve]. destruct (Middleware rl r now) as [rl1 resp]. cbn [fst snd].
  by destruct (serve rl1 reqs).
Qed.

(** A property every call of [allow] keeps is kept by every sequence
    of requests. *)
Lemma serve_invariant (I : RateLimiter -> Prop) :
  (forall rl ip q now, I rl -> I (fst (allow rl ip q now))) ->
  forall reqs rl, I rl -> I (fst (serve rl reqs)).
Proof.
  intros Hallow. induction reqs as [| [r now] reqs IH]; intros rl HI; [done |].
  rewrite serve_cons. cbn [fst]. apply IH.
  destruct (Middleware_fst rl r now) as [-> | [q ->]]; [done | by apply Hallow].
Qed.

(** The first loop of [cleanup]. *)

Lemma sweep_fold_lookup rl now l m ip :
  fold_left (sweep_step rl now) l m !! ip =
    if existsb (expired_at rl now ip) l then None else m !! ip.
Proof.
  revert m. induction l as [| [k c] l IH]; intros m; cbn [fold_left existsb]; [done |].
  rewrite IH. unfold expired_at at 2. cbn [fst snd sweep_step].
  destruct (existsb _ l); [by rewrite orb_true_r |]. rewrite orb_false_r.
  destruct (window rl <? Sub now (firstSeen c)); [| by rewrite andb_false_r].
  rewrite andb_true_r. case_bool_decide as E.
  - subst k. apply lookup_delete_eq.
  - by apply lookup_delete_ne.
Qed.

Lemma sweep_expired_lookup rl now ip :
  sweep_expired rl now !! ip =
    match requests rl !! ip with
    | Some c => if window rl <? Sub now (firstSeen c) then None else Some c
    | None => None
    end.
Proof.
  unfold sweep_expired. rewrite sweep_fold_lookup.
  destruct (requests rl !! ip) as [c |] eqn:Hc; [| by case_match].
  destruct (existsb _ _) eqn:Ex.
  - apply existsb_exists in Ex as ([k c'] & Hin & Hx).
    apply list_elem_of_In, elem_of_map_to_list in Hin.
    unfold expired_at in Hx. cbn [fst snd] in Hx.
    apply andb_prop in Hx as [Hk Hx]. apply bool_decide_eq_true in Hk. subst k.
    rewrite Hc in Hin. injection Hin as <-. by rewrite Hx.
  - destruct (window rl <? Sub now (firstSeen c)) eqn:Hx; [| done].
    assert (existsb (expired_at rl now ip) (map_to_list (requests rl)) = true) as Ex'.
    { apply existsb_exists. exists (ip, c). split.
      - by apply list_elem_of_In, elem_of_map_to_list.
      - unfold expired_at. cbn [fst snd]. rewrite Hx. by rewrite bool_decide_eq_true_2. }
    congruence.
Qed.

Lemma sweep_expired_subseteq rl now : sweep_expired rl now ⊆ requests rl.
Proof.
  apply map_subseteq_spec. intros ip c. rewrite sweep_expired_lookup.
  destruct (requests rl !! ip); [by case_match | done].
Qed.

(** The second loop of [cleanup]. *)

Lemma evict_loop_ends fuel : forall rl,
  0 <= maxClients rl ->
  len rl - maxClients rl <= Z.of_nat fuel ->
  exists rl', evict_loop fuel rl = Some rl'
              /\ len rl' <= maxClients rl
              /\ requests rl' ⊆ requests rl
              /\ (len rl <= maxClients rl -> rl' = rl)
              /\ maxClients rl' = maxClients rl
              /\ window rl' = window rl.
Proof.
  induction fuel as [| fuel IH]; intros rl H0 Hf.
  - exists rl. cbn [evict_loop].
    destruct (Z.ltb_spec (maxClients rl) (len rl)); [lia | done].
  - cbn [evict_loop]. destruct (Z.ltb_spec (maxClients rl) (len rl)) as [Hover | Hle].
    + destruct (evictOldest_params rl) as [Hw Hm].
      destruct (IH (evictOldest rl)) as (rl' & E & Hl & Hs & _ & Hm' & Hw').
      { by rewrite Hm. }
      { rewrite Hm, evictOldest_size by done. lia. }
      exists rl'. rewrite Hm in *. rewrite Hw in *. split; [done |]. split; [done |].
      split; [by etrans; [exact Hs | apply evictOldest_subseteq] |].
      split; [lia | done].
    + by exists rl.
Qed.

Lemma evict_loop_negative fuel : forall rl,
  maxClients rl < 0 -> evict_loop fuel rl = None.
Proof.
  induction fuel as [| fuel IH]; intros rl Hneg; cbn [evict_loop];
    (destruct (Z.ltb_spec (maxClients rl) (len rl)); [| unfold len in *; lia]).
  - done.
  - apply IH. by rewrite (proj2 (evictOldest_params rl)).
Qed.

Lemma evictOldest_counters rl :
  requestsTotal (evictOldest rl) = requestsTotal rl
  /\ blockedTotal (evictOldest rl) = blockedTotal rl.
Proof. unfold evictOldest. by case_match. Qed.

Lemma allow_counters rl ip q now :
  if fst (snd (allow rl ip q now))
  then requestsTotal (fst (allow rl ip q now)) = S (requestsTotal rl)
       /\ blockedTotal (fst (allow rl ip q now)) = blockedTotal rl
  else requestsTotal (fst (allow rl ip q now)) = requestsTotal rl
       /\ blockedTotal (fst (allow rl ip q now)) = S (blockedTotal rl).
Proof.
  destruct (requests rl !! ip) as [c |] eqn:Hc.
  - destruct (Z.lt_ge_cases (window rl) (Sub now (firstSeen c))) as [Hexp | Hw].
    + by rewrite (allow_expired _ _ _ _ _ Hc Hexp).
    + destruct (Z.lt_ge_cases (count c) q) as [Hq | Hq].
      * by rewrite (allow_counted _ _ _ _ _ Hc Hw Hq).
      * by rewrite (allow_denied _ _ _ _ _ Hc Hw Hq).
  - rewrite (allow_untracked _ _ _ _ Hc). cbn.
    case_match; [| done]. destruct (evictOldest_counters rl) as [-> ->]. done.
Qed.

Lemma Middleware_counters rl r now :
  minLevel (fst (Middleware rl r now)) = minLevel rl
  /\ blockedTotal (fst (Middleware rl r now))
     = (blockedTotal rl + denials [snd (Middleware rl r now)])%nat
  /\ (requestsTotal (fst (Middleware rl r now)) + denials [snd (Middleware rl r now)])%nat
     = (requestsTotal rl + length (List.filter (limited rl) [(r, now)]))%nat.
Proof.
  unfold limited, Middleware. cbn [List.filter fst].
  destruct (LevelLessThan _ _); cbn [negb]; [unfold denials; cbn; repeat split; lia |].
  set (q := maxReq_for _ _).
  pose proof (allow_counters rl (clientIP r) q now) as Hc.
  pose proof (allow_params rl (clientIP r) q now) as (_ & _ & Hm & _).
  destruct (allow _ _ _ _) as [rl' [[] d]]; unfold denials; cbn in *;
    (split; [tauto |]); lia.
Qed.

(** X1: over capacity, with every tracked window start a real clock
    reading, [evictOldest] removes exactly one client, and no tracked
    client has an earlier window start than the one removed. *)
Theorem evictOldest_removes_an_oldest_client (rl : RateLimiter) :
  0 <= maxClients rl ->
  maxClients rl < len rl ->
  (forall ip c, requests rl !! ip = Some c -> firstSeen c <> 0) ->
  exists ip c,
    requests rl !! ip = Some c
    /\ (forall ip' c', requests rl !! ip' = Some c' -> firstSeen c <= firstSeen c')
    /\ requests (evictOldest rl) = delete ip (requests rl)
    /\ len (evictOldest rl) = len rl - 1.
Proof.
  intros H0 Hover Hnz.
  destruct (evictOldest_over rl H0 Hover) as (ip & c & Hc & Hs & E).
  exists ip, c. split; [exact Hc |]. split; [| split].
  - intros ip' c' Hc'. rewrite <- Hs.
    apply (oldest_scan_min (map_to_list (requests rl))) with (kv := (ip', c')).
    + intros [k x] Hkv. apply elem_of_map_to_list in Hkv. by apply (Hnz k).
    + by apply elem_of_map_to_list.
  - by rewrite E.
  - by apply evictOldest_size.
Qed.

Lemma evictOldest_removes_an_oldest_client_witness :
  exists ip c,
    requests (sample.two_clients 1 Minute) !! ip = Some c
    /\ (forall ip' c', requests (sample.two_clients 1 Minute) !! ip' = Some c' ->
                       firstSeen c <= firstSeen c')
    /\ requests (evictOldest (sample.two_clients 1 Minute))
       = delete ip (requests (sample.two_clients 1 Minute))
    /\ len (evictOldest (sample.two_clients 1 Minute)) = len (sample.two_clients 1 Minute) - 1.
Proof.
  apply (evictOldest_removes_an_oldest_client (sample.two_clients 1 Minute)).
  - cbn. lia.
  - vm_compute. reflexivity.
  - apply (bool_decide_unpack
             (map_Forall (fun (_ : string) c => firstSeen c <> 0)
                         (requests (sample.two_clients 1 Minute)))).
    vm_compute. exact I.
Defined.

(** X2: with a capacity that is not negative, no sequence of requests
    makes the table hold more than [maxClients + 1] clients. *)
Theorem serve_keeps_table_within_capacity_plus_one (rl : RateLimiter)
    (reqs : list (Request * Z)) :
  0 <= maxClients rl ->
  len rl <= maxClients rl + 1 ->
  maxClients (fst (serve rl reqs)) = maxClients rl
  /\ len (fst (serve rl reqs)) <= maxClients rl + 1.
Proof.
  intros H0 Hb.
  apply (serve_invariant
           (fun rl' => maxClients rl' = maxClients rl /\ len rl' <= maxClients rl + 1));
    [| done].
  intros rl' ip q now [Hm Hl].
  destruct (allow_params rl' ip q now) as (Hm' & _).
  split; [congruence |]. rewrite <- Hm in *. by apply allow_len_bound.
Qed.

Lemma serve_keeps_table_within_capacity_plus_one_witness :
  maxClients (fst (serve (mkRateLimiter ∅ 5 2 Minute 0 0 0 "INFO" None) sample.four_requests)) = 2
  /\ len (fst (serve (mkRateLimiter ∅ 5 2 Minute 0 0 0 "INFO" None) sample.four_requests)) <= 2 + 1.
Proof.
  apply (serve_keeps_table_within_capacity_plus_one
           (mkRateLimiter ∅ 5 2 Minute 0 0 0 "INFO" None) sample.four_requests).
  - cbn. lia.
  - vm_compute. discriminate.
Defined.

(** X3: when the gauge of active clients equals the size of the table,
    it still does after any sequence of requests. *)
Theorem serve_keeps_gauge_equal_to_table_size (rl : RateLimiter)
    (reqs : list (Request * Z)) :
  activeClients rl = len rl ->
  activeClients (fst (serve rl reqs)) = len (fst (serve rl reqs)).
Proof.
  intros Hg.
  apply (serve_invariant (fun rl' => activeClients rl' = len rl')); [| done].
  intros rl' ip q now. apply allow_gauge.
Qed.

Lemma serve_keeps_gauge_equal_to_table_size_witness :
  activeClients (fst (serve (sample.two_clients 2 Minute) sample.four_requests))
  = len (fst (serve (sample.two_clients 2 Minute) sample.four_requests)).
Proof.
  apply (serve_keeps_gauge_equal_to_table_size (sample.two_clients 2 Minute) sample.four_requests).
  reflexivity.
Defined.

(** X4: a call of [allow] for a client that is tracked, or made while
    the table is below capacity, leaves the entry of every other client
    as it was; and a denied call leaves the whole table as it was. *)
Theorem allow_leaves_other_clients (rl : RateLimiter) (ip ip' : string) (q now : Z) :
  ip' <> ip ->
  is_Some (requests rl !! ip) \/ len rl < maxClients rl ->
  requests (fst (allow rl ip q now)) !! ip' = requests rl !! ip'
  /\ (fst (snd (allow rl ip q now)) = false ->
      requests (fst (allow rl ip q now)) = requests rl).
Proof.
  intros Hne Hcase. destruct (requests rl !! ip) as [c |] eqn:Hc.
  - destruct (Z.lt_ge_cases (window rl) (Sub now (firstSeen c))) as [Hexp | Hw].
    + rewrite (allow_expired _ _ _ _ _ Hc Hexp). cbn.
      split; [by apply lookup_insert_ne | discriminate].
    + destruct (Z.lt_ge_cases (count c) q) as [Hq | Hq].
      * rewrite (allow_counted _ _ _ _ _ Hc Hw Hq). cbn.
        split; [by apply lookup_insert_ne | discriminate].
      * by rewrite (allow_denied _ _ _ _ _ Hc Hw Hq).
  - destruct Hcase as [[? ?] | Hlt]; [done |].
    rewrite (allow_untracked _ _ _ _ Hc).
    destruct (Z.leb_spec (maxClients rl) (len rl)); [lia |]. cbn.
    split; [by apply lookup_insert_ne | discriminate].
Qed.

Lemma allow_leaves_other_clients_witness :
  requests (fst (allow (sample.two_clients 2 Minute) "b" 2 7)) !! "a"
  = requests (sample.two_clients 2 Minute) !! "a"
  /\ (fst (snd (allow (sample.two_clients 2 Minute) "b" 2 7)) = false ->
      requests (fst (allow (sample.two_clients 2 Minute) "b" 2 7))
      = requests (sample.two_clients 2 Minute)).
Proof.
  apply (allow_leaves_other_clients (sample.two_clients 2 Minute) "b" "a" 2 7).
  - discriminate.
  - left. vm_compute. eauto.
Defined.

(** X5: with a capacity that is not negative, [cleanup] ends within as
    many evictions as the table has clients; every client it keeps was
    tracked with the same entry and is inside its window; at most
    [maxClients] clients remain and the gauge is their number; and when
    the table was within capacity, every client inside its window is
    kept. *)
Theorem cleanup_removes_expired_clients (rl : RateLimiter) (now : Z) (fuel : nat) :
  0 <= maxClients rl ->
  (size (requests rl) <= fuel)%nat ->
  exists rl',
    cleanup fuel rl now = Some rl'
    /\ (forall ip c, requests rl' !! ip = Some c ->
          requests rl !! ip = Some c /\ Sub now (firstSeen c) <= window rl)
    /\ len rl' <= maxClients rl
    /\ activeClients rl' = len rl'
    /\ (len rl <= maxClients rl ->
        forall ip c, requests rl !! ip = Some c ->
                     Sub now (firstSeen c) <= window rl ->
                     requests rl' !! ip = Some c).
Proof.
  intros H0 Hfuel. unfold cleanup.
  set (rl1 := set_requests rl (sweep_expired rl now)).
  assert (Hsz : len rl1 <= len rl).
  { unfold len, rl1. cbn.
    pose proof (map_subseteq_size _ _ (sweep_expired_subseteq rl now)). lia. }
  destruct (evict_loop_ends fuel rl1) as (rl' & -> & Hl & Hs & Hsame & _ & _).
  { exact H0. }
  { change (maxClients rl1) with (maxClients rl). unfold len in *. lia. }
  change (maxClients rl1) with (maxClients rl) in *.
  exists (set_activeClients rl' (len rl')). split; [done |].
  split; [| split; [exact Hl | split; [reflexivity |]]].
  - intros ip c Hc. cbn in Hc.
    apply (lookup_weaken _ _ _ _ Hc) in Hs. cbn in Hs.
    rewrite sweep_expired_lookup in Hs.
    destruct (requests rl !! ip) as [c0 |]; [| done].
    destruct (Z.ltb_spec (window rl) (Sub now (firstSeen c0))); [done |].
    injection Hs as ->. done.
  - intros Hcap ip c Hc Hin. rewrite Hsame by lia. cbn.
    rewrite sweep_expired_lookup, Hc.
    destruct (Z.ltb_spec (window rl) (Sub now (firstSeen c))); [lia | done].
Qed.

Lemma cleanup_removes_expired_clients_witness :
  exists rl',
    cleanup 2 (sample.two_clients 2 2) 6 = Some rl'
    /\ (forall ip c, requests rl' !! ip = Some c ->
          requests (sample.two_clients 2 2) !! ip = Some c
          /\ Sub 6 (firstSeen c) <= window (sample.two_clients 2 2))
    /\ len rl' <= maxClients (sample.two_clients 2 2)
    /\ activeClients rl' = len rl'
    /\ (len (sample.two_clients 2 2) <= maxClients (sample.two_clients 2 2) ->
        forall ip c,
          requests (sample.two_clients 2 2) !! ip = Some c ->
          Sub 6 (firstSeen c) <= window (sample.two_clients 2 2) ->
          requests rl' !! ip = Some c).
Proof.
  apply (cleanup_removes_expired_clients (sample.two_clients 2 2) 6 2).
  - cbn. lia.
  - vm_compute. lia.
Defined.

(** X6: the eviction loop of [cleanup] ends exactly when the capacity
    is not negative: with a negative [maxClients] no number of
    iterations ends it, whatever the table holds. *)
Theorem cleanup_ends_iff_capacity_not_negative (rl : RateLimiter) (now : Z) :
  (exists fuel, is_Some (cleanup fuel rl now)) <-> 0 <= maxClients rl.
Proof.
  split.
  - intros [fuel [rl' H]]. destruct (Z.lt_ge_cases (maxClients rl) 0) as [Hneg | ?]; [| done].
    unfold cleanup in H. rewrite evict_loop_negative in H by done. discriminate.
  - intros H0.
    exists (size (requests rl)).
    assert (Hsz : len (set_requests rl (sweep_expired rl now)) <= len rl).
    { unfold len. cbn.
      pose proof (map_subseteq_size _ _ (sweep_expired_subseteq rl now)). lia. }
    destruct (evict_loop_ends (size (requests rl)) (set_requests rl (sweep_expired rl now)))
      as (rl' & E & _).
    { exact H0. }
    { change (maxClients (set_requests rl (sweep_expired rl now))) with (maxClients rl).
      unfold len in *. lia. }
    unfold cleanup. rewrite E. by eexists.
Qed.

(** X7: over any sequence of requests the counter of blocked requests
    grows by the number of 429 answers, and the two counters together
    grow by the number of requests whose level is not below the minimum
    level. *)
Theorem serve_counters_count_answers (rl : RateLimiter) (reqs : list (Request * Z)) :
  blockedTotal (fst (serve rl reqs))
    = (blockedTotal rl + denials (snd (serve rl reqs)))%nat
  /\ (requestsTotal (fst (serve rl reqs)) + blockedTotal (fst (serve rl reqs)))%nat
     = (requestsTotal rl + blockedTotal rl + length (List.filter (limited rl) reqs))%nat.
Proof.
  revert rl. induction reqs as [| [r now] reqs IH]; intros rl.
  - unfold denials. cbn. lia.
  - rewrite serve_cons. cbn [fst snd].
    destruct (Middleware_counters rl r now) as (Hm & Hb & Hr).
    destruct (IH (fst (Middleware rl r now))) as [IHb IHr].
    assert (Hlim : List.filter (limited (fst (Middleware rl r now))) reqs
                   = List.filter (limited rl) reqs).
    { apply List.filter_ext. intros rt. unfold limited. by rewrite Hm. }
    rewrite Hlim in IHr.
    assert (Hd : forall resp resps, denials (resp :: resps) = (denials [resp] + denials resps)%nat).
    { intros resp resps. unfold denials. cbn. by destruct resp. }
    assert (Hf : length (List.filter (limited rl) ((r, now) :: reqs))
                 = (length (List.filter (limited rl) [(r, now)])
                    + length (List.filter (limited rl) reqs))%nat).
    { cbn [List.filter]. by destruct (limited rl (r, now)). }
    rewrite Hd, Hf. lia.
Qed.


Lemma serve_invariant_Middleware (I : RateLimiter -> Prop) :
  (forall rl r now, I rl -> I (fst (Middleware rl r now))) ->
  forall reqs rl, I rl -> I (fst (serve rl reqs)).
Proof.
  intros Hstep. induction reqs as [| [r now] reqs IH]; intros rl HI; [done |].
  rewrite serve_cons. cbn [fst]. by apply IH, Hstep.
Qed.

Lemma allow_counts_within Q rl ip q now :
  1 <= Q <= MaxInt64 -> q <= Q ->
  counts_within Q rl -> counts_within Q (fst (allow rl ip q now)).
Proof.
  intros HQ Hq Hin.
  assert (Hopen : forall rl0, counts_within Q rl0 -> counts_within Q (opened rl0 ip now)).
  { intros rl0 H0 ip' c' H. cbn in H.
    apply lookup_insert_Some in H as [[_ <-] | [_ H]]; [cbn; lia | by apply (H0 ip')]. }
  destruct (requests rl !! ip) as [c |] eqn:Hc.
  - destruct (Z.lt_ge_cases (window rl) (Sub now (firstSeen c))) as [Hexp | Hw].
    + rewrite (allow_expired _ _ _ _ _ Hc Hexp). by apply Hopen.
    + destruct (Z.lt_ge_cases (count c) q) as [Hlt | Hge].
      * rewrite (allow_counted _ _ _ _ _ Hc Hw Hlt). intros ip' c' H. cbn in H.
        apply lookup_insert_Some in H as [[_ <-] | [_ H]]; [| by apply (Hin ip')].
        cbn. pose proof (Hin ip c Hc).
        rewrite wrap64_id by (unfold in_int64, MinInt64, MaxInt64 in *; lia). lia.
      * by rewrite (allow_denied _ _ _ _ _ Hc Hw Hge).
  - rewrite (allow_untracked _ _ _ _ Hc). cbn [fst]. apply Hopen.
    destruct (maxClients rl <=? len rl); [| done].
    intros ip' c' H. apply (Hin ip').
    by apply (lookup_weaken _ _ _ _ H), evictOldest_subseteq.
Qed.

(** X8: when no quota of the limiter exceeds [Q] and every tracked
    client has a count between 1 and [Q], the same holds after any
    sequence of requests: no client is counted past the largest quota,
    and the 64-bit increment of the count never wraps. *)
Theorem serve_keeps_counts_within_quota (Q : Z) (rl : RateLimiter)
    (reqs : list (Request * Z)) :
  1 <= Q <= MaxInt64 ->
  (forall level, maxReq_for rl level <= Q) ->
  (forall ip c, requests rl !! ip = Some c -> 1 <= count c <= Q) ->
  forall ip c, requests (fst (serve rl reqs)) !! ip = Some c -> 1 <= count c <= Q.
Proof.
  intros HQ Hquota Hin.
  pose (I := fun rl' => maxRequests rl' = maxRequests rl
                        /\ perLevelLimits rl' = perLevelLimits rl
                        /\ counts_within Q rl').
  assert (HI : I (fst (serve rl reqs))).
  { apply (serve_invariant_Middleware I); [| split; [done | split; [done | exact Hin]]].
    intros rl' r now (Hm & Hp & Hc).
    unfold Middleware. destruct (LevelLessThan _ _); [split; [done | split; [done | exact Hc]] |].
    set (level := NormalizeLogLevel _).
    pose proof (allow_params rl' (clientIP r) (maxReq_for rl' level) now)
      as (_ & _ & _ & Hp' & Hm').
    assert (Hq : maxReq_for rl' level <= Q).
    { unfold maxReq_for. rewrite Hp, Hm. apply Hquota. }
    pose proof (allow_counts_within Q rl' (clientIP r) _ now HQ Hq Hc) as Hc'.
    destruct (allow _ _ _ _) as [rl'' [[] d]]; cbn [fst negb] in *;
      (split; [congruence | split; [congruence | done]]). }
  destruct HI as (_ & _ & Hc). apply Hc.
Qed.

Lemma serve_keeps_counts_within_quota_witness :
  requests (fst (serve (sample.two_clients 2 Minute) sample.four_requests)) !! "b"
    = Some (mkClientData 2 3)
  /\ 1 <= count (mkClientData 2 3) <= 2.
Proof.
  assert (H : requests (fst (serve (sample.two_clients 2 Minute) sample.four_requests)) !! "b"
              = Some (mkClientData 2 3)) by (vm_compute; reflexivity).
  split; [exact H |].
  apply (serve_keeps_counts_within_quota 2 (sample.two_clients 2 Minute)
           sample.four_requests) with (ip := "b"); [| | | exact H].
  - unfold MaxInt64. lia.
  - intros level. vm_compute. discriminate.
  - apply (bool_decide_unpack
             (map_Forall (fun (_ : string) c => 1 <= count c <= 2)
                         (requests (sample.two_clients 2 Minute)))).
    vm_compute. exact I.
Defined.

(** X9: [Middleware] answers 429 only to a request whose level is
    not below the minimum level, from a client that is tracked, inside
    its window, and counted up to the quota of the level or beyond; the
    only change to the limiter is the counter of blocked requests, and
    the [Retry-After] value is not negative. *)
Theorem Middleware_denies_only_at_quota (rl rl' : RateLimiter) (r : Request)
    (now s : Z) :
  Middleware rl r now = (rl', TooManyRequests s) ->
  LevelLessThan (NormalizeLogLevel (Header_Get (X_Log_Level r))) (minLevel rl) = false
  /\ exists c,
       requests rl !! clientIP r = Some c
       /\ Sub now (firstSeen c) <= window rl
       /\ maxReq_for rl (NormalizeLogLevel (Header_Get (X_Log_Level r))) <= count c
       /\ rl' = inc_blockedTotal rl
       /\ 0 <= s.
Proof.
  unfold Middleware. destruct (LevelLessThan _ _); [done |].
  destruct (allow _ _ _ _) as [rl1 [[] d]] eqn:Ha; cbn [negb]; [done |].
  intros [= <- <-]. split; [done |].
  apply allow_denied_inv in Ha as (c & Hc & Hw & Hq & -> & _).
  exists c. repeat split; try done.
  unfold retry_after_seconds. case_match; [done |]. by apply Z.ltb_ge.
Qed.

Lemma Middleware_denies_only_at_quota_witness :
  LevelLessThan (NormalizeLogLevel (Header_Get (Some "error")))
                (minLevel (sample.two_clients 2 Minute)) = false
  /\ exists c,
       requests (sample.two_clients 2 Minute) !! "b" = Some c
       /\ Sub 7 (firstSeen c) <= window (sample.two_clients 2 Minute)
       /\ maxReq_for (sample.two_clients 2 Minute)
                     (NormalizeLogLevel (Header_Get (Some "error"))) <= count c
       /\ inc_blockedTotal (sample.two_clients 2 Minute)
          = inc_blockedTotal (sample.two_clients 2 Minute)
       /\ 0 <= 59.
Proof.
  apply (Middleware_denies_only_at_quota
           (sample.two_clients 2 Minute) (inc_blockedTotal (sample.two_clients 2 Minute))
           (mkRequest "b" (Some "error")) 7 59).
  vm_compute. reflexivity.
Defined.

Lemma Middleware_keeps_absent rl r now k :
  k <> clientIP r ->
  requests rl !! k = None ->
  requests (fst (Middleware rl r now)) !! k = None.
Proof.
  intros Hne Hk. destruct (Middleware_fst rl r now) as [-> | [q ->]]; [done |].
  destruct (requests rl !! clientIP r) as [c |] eqn:Hc.
  - destruct (Z.lt_ge_cases (window rl) (Sub now (firstSeen c))) as [Hexp | Hw].
    + rewrite (allow_expired _ _ _ _ _ Hc Hexp). cbn. by rewrite lookup_insert_ne.
    + destruct (Z.lt_ge_cases (count c) q) as [Hq | Hq].
      * rewrite (allow_counted _ _ _ _ _ Hc Hw Hq). cbn. by rewrite lookup_insert_ne.
      * by rewrite (allow_denied _ _ _ _ _ Hc Hw Hq).
  - rewrite (allow_untracked _ _ _ _ Hc). cbn. rewrite lookup_insert_ne by done.
    destruct (maxClients rl <=? len rl); [by apply evictOldest_absent | done].
Qed.

Lemma Middleware_untracked_passes rl r now :
  requests rl !! clientIP r = None -> snd (Middleware rl r now) = Next.
Proof.
  intros Hc. unfold Middleware. destruct (LevelLessThan _ _); [done |].
  by rewrite (allow_untracked _ _ _ _ Hc).
Qed.

(** X10: requests that each come under a key of their own, none of
    them tracked, are all passed on, whatever the quotas and the
    capacity: the limiter never denies the first request of a key. *)
Theorem serve_passes_every_new_key (rl : RateLimiter) (reqs : list (Request * Z)) :
  NoDup (map (fun rt => clientIP (fst rt)) reqs) ->
  Forall (fun rt => requests rl !! clientIP (fst rt) = None) reqs ->
  snd (serve rl reqs) = map (fun _ => Next) reqs.
Proof.
  revert rl. induction reqs as [| [r now] reqs IH]; intros rl Hnd Hun; [done |].
  rewrite serve_cons. cbn [snd map fst].
  apply List.NoDup_cons_iff in Hnd as [Hnotin Hnd]. cbn [fst] in Hnotin.
  pose proof (Forall_inv Hun) as Hr. cbn [fst] in Hr.
  apply Forall_inv_tail in Hun.
  rewrite (Middleware_untracked_passes _ _ _ Hr). f_equal.
  apply IH; [done |].
  rewrite List.Forall_forall in Hun |- *. intros [r' now'] Hin. cbn [fst].
  apply Middleware_keeps_absent; [| by apply (Hun (r', now'))].
  intros E. apply Hnotin. rewrite <- E.
  apply in_map_iff. by exists (r', now').
Qed.

Lemma serve_passes_every_new_key_witness :
  snd (serve (mkRateLimiter ∅ 1 1 Minute 0 0 0 "INFO" (Some {["INFO" := 0]}))
             sample.four_requests)
  = map (fun _ => Next) sample.four_requests.
Proof.
  apply (serve_passes_every_new_key
           (mkRateLimiter ∅ 1 1 Minute 0 0 0 "INFO" (Some {["INFO" := 0]}))
           sample.four_requests).
  - cbn. repeat (apply List.NoDup_cons; [cbn; intuition discriminate |]).
    apply List.NoDup_nil.
  - repeat constructor.
Defined.

Lemma Sub_mono t t' u : t <= t' -> Sub t u <= Sub t' u.
Proof.
  intros H. unfold Sub, MinInt64, MaxInt64.
  repeat match goal with |- context [?x <? ?y] => destruct (Z.ltb_spec x y) end; lia.
Qed.

Lemma Sub_nonpos t u : t <= u -> Sub t u <= 0.
Proof.
  intros H. unfold Sub, MinInt64, MaxInt64.
  repeat match goal with |- context [?x <? ?y] => destruct (Z.ltb_spec x y) end; lia.
Qed.

Lemma swept_size t0 a b : swept t0 a b -> len b <= len a.
Proof.
  intros (_ & _ & _ & _ & _ & H). unfold len.
  assert (requests b ⊆ requests a).
  { apply map_subseteq_spec. intros ip c Hb. rewrite H in Hb.
    destruct (requests a !! ip) as [c' |]; [| done]. by destruct (_ <? _). }
  pose proof (map_subseteq_size _ _ H0). lia.
Qed.

Lemma swept_opened t0 a b ip now :
  0 <= window a -> t0 <= now ->
  swept t0 a b -> swept t0 (opened a ip now) (opened b ip now).
Proof.
  intros Hw Ht (H1 & H2 & H3 & H4 & H5 & H). repeat split; try done.
  intros k. cbn. destruct (decide (k = ip)) as [-> | Hne].
  - rewrite !lookup_insert_eq. cbn.
    pose proof (Sub_nonpos t0 now Ht).
    destruct (Z.ltb_spec (window a) (Sub t0 now)); [lia | done].
  - rewrite !lookup_insert_ne by done. apply H.
Qed.

Lemma swept_Middleware t0 a b r now :
  0 <= window a -> t0 <= now -> len a < maxClients a ->
  swept t0 a b ->
  snd (Middleware b r now) = snd (Middleware a r now)
  /\ swept t0 (fst (Middleware a r now)) (fst (Middleware b r now))
  /\ len (fst (Middleware a r now)) <= len a + 1.
Proof.
  intros Hw Ht Hcap HR.
  pose proof (swept_size _ _ _ HR) as Hsz.
  destruct HR as (H1 & H2 & H3 & H4 & H5 & H).
  assert (HR : swept t0 a b) by (repeat split; done).
  unfold Middleware. rewrite H3.
  destruct (LevelLessThan _ _); [cbn [fst snd]; split; [done | split; [done | lia]] |].
  assert (Hq : maxReq_for b (NormalizeLogLevel (Header_Get (X_Log_Level r)))
               = maxReq_for a (NormalizeLogLevel (Header_Get (X_Log_Level r)))).
  { unfold maxReq_for. by rewrite H4, H5. }
  rewrite Hq. set (q := maxReq_for a _). set (ip := clientIP r).
  pose proof (H ip) as Hip.
  assert (Hfresh_b : requests b !! ip = None ->
                     allow b ip q now = (opened b ip now, (true, 0))).
  { intros Hb. rewrite (allow_untracked _ _ _ _ Hb).
    destruct (Z.leb_spec (maxClients b) (len b)); [lia | done]. }
  destruct (requests a !! ip) as [c |] eqn:Ha.
  - destruct (Z.ltb_spec (window a) (Sub t0 (firstSeen c))) as [Hexp0 | Hin0].
    + pose proof (Sub_mono t0 now (firstSeen c) Ht) as Hm.
      rewrite (allow_expired a _ _ _ _ Ha) by lia.
      rewrite (Hfresh_b Hip). cbn [negb fst snd].
      split; [done |]. split; [by apply swept_opened |].
      unfold len. cbn. rewrite map_size_insert_Some by by rewrite Ha. lia.
    + destruct (Z.lt_ge_cases (window a) (Sub now (firstSeen c))) as [Hexp | Hin].
      * rewrite (allow_expired a _ _ _ _ Ha Hexp).
        rewrite (allow_expired b _ _ _ _ Hip) by by rewrite H1.
        cbn [negb fst snd]. split; [done |]. split; [by apply swept_opened |].
        unfold len. cbn. rewrite map_size_insert_Some by by rewrite Ha. lia.
      * destruct (Z.lt_ge_cases (count c) q) as [Hlt | Hge].
        -- rewrite (allow_counted a _ _ _ _ Ha Hin Hlt).
           rewrite (allow_counted b _ _ _ _ Hip) by (rewrite ?H1; done).
           cbn [negb fst snd]. split; [done |]. split.
           ++ repeat split; try done. intros k. cbn.
              destruct (decide (k = ip)) as [-> | Hne].
              ** rewrite !lookup_insert_eq. cbn.
                 destruct (Z.ltb_spec (window a) (Sub t0 (firstSeen c))); [lia | done].
              ** rewrite !lookup_insert_ne by done. apply H.
           ++ unfold len. cbn. rewrite map_size_insert_Some by by rewrite Ha. lia.
        -- rewrite (allow_denied a _ _ _ _ Ha Hin Hge).
           rewrite (allow_denied b _ _ _ _ Hip) by (rewrite ?H1; done).
           cbn [negb fst snd]. rewrite H1. split; [done |]. split; [| unfold len; cbn; lia].
           repeat split; done.
  - rewrite (Hfresh_b Hip). rewrite (allow_untracked _ _ _ _ Ha).
    destruct (Z.leb_spec (maxClients a) (len a)); [lia |].
    cbn [negb fst snd]. split; [done |]. split; [by apply swept_opened |].
    rewrite opened_len by done. lia.
Qed.

Lemma swept_serve t0 reqs : forall a b,
  0 <= window a ->
  Forall (fun rt => t0 <= snd rt) reqs ->
  len a + Z.of_nat (length reqs) <= maxClients a ->
  swept t0 a b ->
  snd (serve b reqs) = snd (serve a reqs).
Proof.
  induction reqs as [| [r now] reqs IH]; intros a b Hw Ht Hcap HR; [done |].
  rewrite !serve_cons. cbn [snd].
  pose proof (Forall_inv Ht) as Hnow. cbn in Hnow. apply Forall_inv_tail in Ht.
  cbn [length] in Hcap.
  destruct (swept_Middleware t0 a b r now Hw Hnow) as (Hresp & HR' & Hlen); [lia | done |].
  rewrite Hresp. f_equal.
  pose proof HR' as (Hw' & Hm' & _).
  assert (Hpa : window (fst (Middleware a r now)) = window a
                /\ maxClients (fst (Middleware a r now)) = maxClients a).
  { destruct (Middleware_fst a r now) as [-> | [q ->]]; [done |].
    pose proof (allow_params a (clientIP r) q now) as (? & ? & _). done. }
  destruct Hpa as [Hpw Hpm].
  apply IH; [by rewrite Hpw | done | rewrite Hpm; lia | done].
Qed.

(** X11: with a window that is not negative, a cleanup is not observed
    by the requests made at or after its clock reading: as long as the
    table cannot reach capacity during them, the answers after the
    cleanup are those the limiter would have given without it. *)
Theorem cleanup_is_not_observed (rl rl' : RateLimiter) (t0 : Z) (fuel : nat)
    (reqs : list (Request * Z)) :
  0 <= window rl ->
  cleanup fuel rl t0 = Some rl' ->
  Forall (fun rt => t0 <= snd rt) reqs ->
  len rl + Z.of_nat (length reqs) <= maxClients rl ->
  snd (serve rl' reqs) = snd (serve rl reqs).
Proof.
  intros Hw Hc Ht Hcap.
  apply (swept_serve t0); [done | done | done |].
  unfold cleanup in Hc.
  set (rl1 := set_requests rl (sweep_expired rl t0)) in *.
  assert (Hsz : len rl1 <= len rl).
  { unfold len, rl1. cbn.
    pose proof (map_subseteq_size _ _ (sweep_expired_subseteq rl t0)). lia. }
  assert (H0 : 0 <= maxClients rl) by (unfold len in *; lia).
  destruct (evict_loop_ends fuel rl1) as (rl2 & E & _ & _ & Hsame & _ & _).
  { exact H0. }
  { change (maxClients rl1) with (maxClients rl). unfold len in *. lia. }
  rewrite E in Hc. injection Hc as <-.
  rewrite Hsame by (change (maxClients rl1) with (maxClients rl); lia).
  repeat split; try done. intros ip. cbn. apply sweep_expired_lookup.
Qed.

Lemma cleanup_is_not_observed_witness :
  snd (serve (mkRateLimiter {["a" := mkClientData 1 5]} 2 10 2 3 0 1 "INFO" None)
             sample.three_requests)
  = snd (serve (sample.two_clients 10 2) sample.three_requests).
Proof.
  apply (cleanup_is_not_observed
           (sample.two_clients 10 2)
           (mkRateLimiter {["a" := mkClientData 1 5]} 2 10 2 3 0 1 "INFO" None)
           6 2 sample.three_requests).
  - cbn. lia.
  - vm_compute. reflexivity.
  - repeat constructor; cbn; lia.
  - vm_compute. discriminate.
Defined.

End ratelimit_props.

(** ** Levels: further properties *)

Module log_levels_props.
Import Go log_levels log_levels_facts.

Lemma AllLogLevels_upper l : l ∈ AllLogLevels -> ToUpper l = l.
Proof.
  unfold AllLogLevels. intros H.
  repeat (apply elem_of_cons in H as [-> | H]; [reflexivity |]).
  by apply elem_of_nil in H.
Qed.

Lemma allowedLogLevels_lookup k v :
  allowedLogLevels !! k = Some v -> v = k /\ k ∈ AllLogLevels.
Proof.
  unfold allowedLogLevels, AllLogLevels.
  repeat (rewrite lookup_insert; destruct (decide (_ = k)) as [<- | ?];
          [intros [= <-]; split; [reflexivity | apply list_elem_of_In; cbn; tauto] |]).
  by rewrite lookup_empty.
Qed.

Lemma IsValidLogLevel_ToUpper s : IsValidLogLevel (ToUpper s) = IsValidLogLevel s.
Proof. unfold IsValidLogLevel. by rewrite ToUpper_idem. Qed.

(** X12: [AllLogLevels] lists the levels by increasing severity:
    [LevelLessThan] holds of two levels exactly when the first stands
    before the second in that list. *)
Theorem LevelLessThan_is_the_order_of_AllLogLevels (i j : nat) (a b : LogLevel) :
  AllLogLevels !! i = Some a ->
  AllLogLevels !! j = Some b ->
  (LevelLessThan a b = true <-> (i < j)%nat).
Proof.
  intros Ha Hb.
  destruct i as [| [| [| [| [| [| i]]]]]]; cbn in Ha; try discriminate; injection Ha as <-;
    (destruct j as [| [| [| [| [| [| j]]]]]]; cbn in Hb; try discriminate; injection Hb as <-);
    vm_compute; split; first [discriminate | reflexivity | lia | (intros H; exfalso; lia)].
Qed.

Lemma LevelLessThan_is_the_order_of_AllLogLevels_witness :
  LevelLessThan "DEBUG" "WARN" = true <-> (1 < 3)%nat.
Proof.
  apply (LevelLessThan_is_the_order_of_AllLogLevels 1 3 "DEBUG" "WARN"); reflexivity.
Defined.

(** X13: on ASCII texts validity does not depend on the case of the
    letters: an ASCII text is valid exactly when its normalized form is
    one of the six levels; normalizing twice is normalizing once, and
    the six levels are their own normalized forms. *)
Theorem validity_is_membership_of_the_normalized_level (s : string) :
  is_ascii s = true ->
  (IsValidLogLevel s = true <-> NormalizeLogLevel s ∈ AllLogLevels)
  /\ IsValidLogLevel (NormalizeLogLevel s) = IsValidLogLevel s
  /\ NormalizeLogLevel (NormalizeLogLevel s) = NormalizeLogLevel s
  /\ (s ∈ AllLogLevels -> NormalizeLogLevel s = s /\ IsValidLogLevel s = true).
Proof.
  intros _.
  split; [apply IsValidLogLevel_spec |].
  split; [apply IsValidLogLevel_ToUpper |].
  split; [apply ToUpper_idem |].
  intros H. split; [by apply AllLogLevels_upper |].
  apply IsValidLogLevel_spec. by rewrite AllLogLevels_upper.
Qed.

Lemma validity_is_membership_of_the_normalized_level_witness :
  (IsValidLogLevel "Warn" = true <-> NormalizeLogLevel "Warn" ∈ AllLogLevels)
  /\ IsValidLogLevel (NormalizeLogLevel "Warn") = IsValidLogLevel "Warn"
  /\ NormalizeLogLevel (NormalizeLogLevel "Warn") = NormalizeLogLevel "Warn"
  /\ ("Warn" ∈ AllLogLevels ->
      NormalizeLogLevel "Warn" = "Warn" /\ IsValidLogLevel "Warn" = true).
Proof.
  apply (validity_is_membership_of_the_normalized_level "Warn"). reflexivity.
Defined.

(** X14: when the JSON text decodes to an ASCII string,
    [UnmarshalJSON] stores the normalized level if the string is a
    valid level, and otherwise fails with a message that quotes the
    string as received; a level it stores is one of the six. *)
Theorem UnmarshalJSON_stores_the_normalized_level (decode : string -> result string)
    (data raw : string) :
  decode data = Ok raw ->
  is_ascii raw = true ->
  UnmarshalJSON decode data
    = (if IsValidLogLevel raw then Ok (NormalizeLogLevel raw)
       else Err ("invalid log level: " ++ raw)%string)
  /\ forall l, UnmarshalJSON decode data = Ok l -> l ∈ AllLogLevels.
Proof.
  intros Hd _. unfold UnmarshalJSON, IsValidLogLevel, NormalizeLogLevel. rewrite Hd.
  destruct (allowedLogLevels !! ToUpper raw) as [v |] eqn:Hv.
  - apply allowedLogLevels_lookup in Hv as [-> Hin].
    split; [done |]. by intros l [= <-].
  - split; [done |]. by intros l.
Qed.

Lemma UnmarshalJSON_stores_the_normalized_level_witness :
  UnmarshalJSON (fun data => Ok data) "warn"
    = (if IsValidLogLevel "warn" then Ok (NormalizeLogLevel "warn")
       else Err ("invalid log level: " ++ "warn")%string)
  /\ forall l, UnmarshalJSON (fun data => Ok data) "warn" = Ok l -> l ∈ AllLogLevels.
Proof.
  apply (UnmarshalJSON_stores_the_normalized_level (fun data => Ok data) "warn" "warn");
    reflexivity.
Defined.

End log_levels_props.

(** ** Parsing the query string *)

Module utils_props.
Import Go log_levels log_levels_facts log_levels_props utils.

Lemma Atoi_range s v : strconv.Atoi s = Some v -> MinInt64 <= v <= MaxInt64.
Proof.
  unfold strconv.Atoi. destruct s as [| ch rest]; [done |].
  destruct (if (Ascii.eqb ch "-" || Ascii.eqb ch "+")%char then rest else String ch rest);
    [done |].
  destruct (strconv.digits 0 _) as [n |]; [| done].
  destruct (Z.leb_spec MinInt64 (if Ascii.eqb ch "-" then - n else n)); [| done].
  destruct (Z.leb_spec (if Ascii.eqb ch "-" then - n else n) MaxInt64); [| done].
  cbn. intros [= <-]. done.
Qed.

Lemma ParseAndValidatePageLimit_range pageStr limitStr page limit :
  ParseAndValidatePageLimit pageStr limitStr = Ok (page, limit) ->
  1 <= page <= MaxInt64 /\ 1 <= limit <= 100.
Proof.
  unfold ParseAndValidatePageLimit. intros H.
  destruct (String.eqb pageStr "").
  - destruct (String.eqb limitStr "").
    + injection H as <- <-. unfold MaxInt64. lia.
    + destruct (strconv.Atoi limitStr) as [l |]; [| done].
      injection H as <- <-. unfold MaxInt64.
      destruct (Z.ltb_spec l 1); [lia |]. destruct (Z.ltb_spec 100 l); lia.
  - destruct (strconv.Atoi pageStr) as [p |] eqn:Hp; [| done].
    apply Atoi_range in Hp.
    destruct (Z.leb_spec p 0); [done |].
    destruct (String.eqb limitStr "").
    + injection H as <- <-. lia.
    + destruct (strconv.Atoi limitStr) as [l |]; [| done].
      injection H as <- <-.
      destruct (Z.ltb_spec l 1); [lia |]. destruct (Z.ltb_spec 100 l); lia.
Qed.

(** X15: a page and a limit that [ParseAndValidatePageLimit] returns
    are a page of at least 1 and a limit between 1 and 100, and
    [ValidatePageLimit] returns them as they are. *)
Theorem ParseAndValidatePageLimit_gives_what_ValidatePageLimit_keeps
    (pageStr limitStr : string) (page limit : Z) :
  ParseAndValidatePageLimit pageStr limitStr = Ok (page, limit) ->
  1 <= page <= MaxInt64
  /\ 1 <= limit <= 100
  /\ ValidatePageLimit page limit = Ok (page, limit).
Proof.
  intros H. apply ParseAndValidatePageLimit_range in H as [Hp Hl].
  split; [done |]. split; [done |].
  unfold ValidatePageLimit.
  destruct (Z.ltb_spec page 1); [lia |]. destruct (Z.ltb_spec limit 1); [lia |].
  destruct (Z.ltb_spec 1000 limit); [lia | done].
Qed.

Lemma ParseAndValidatePageLimit_gives_what_ValidatePageLimit_keeps_witness :
  1 <= 3 <= MaxInt64
  /\ 1 <= 100 <= 100
  /\ ValidatePageLimit 3 100 = Ok (3, 100).
Proof.
  apply (ParseAndValidatePageLimit_gives_what_ValidatePageLimit_keeps "+03" "5000").
  vm_compute. reflexivity.
Defined.

End utils_props.

(** ** The store: further properties *)

Module logger_props.
Import Go log_levels logger GoFacts log_levels_facts log_levels_props logger_facts logger_spec.

Lemma where_level_app lvl a b :
  where_level lvl (a ++ b) = where_level lvl a ++ where_level lvl b.
Proof. unfold where_level. destruct (lvl =? "")%string; [done | apply List.filter_app]. Qed.

Lemma where_level_In lvl tbl r :
  In r (where_level lvl tbl) -> In r tbl /\ (lvl <> EmptyString -> level r = lvl).
Proof.
  unfold where_level. destruct (String.eqb_spec lvl ""); [by intros ? |].
  intros H. apply filter_In in H as [H1 H2]. split; [done |].
  intros _. by apply String.eqb_eq.
Qed.

Lemma valid_not_empty lvl : IsValidLogLevel lvl = true -> lvl <> EmptyString.
Proof. by intros H ->. Qed.

Section StoreProps.

Variable Time : Type.
Variable Format : Time -> string.
Variable SafeParseTimestamp : string -> Time.
Variable Ctx : Type.
Variable json_Marshal : Ctx -> result string.
Variable json_Unmarshal : string -> result Ctx.
Variable order_by_timestamp : list Row -> list Row.

Local Abbreviation Entry := (LogEntry Time Ctx).
Local Abbreviation Write := (Write Time Format Ctx json_Marshal).
Local Abbreviation row_of := (row_of Time Format Ctx json_Marshal).
Local Abbreviation QueryLogs_rows := (QueryLogs_rows order_by_timestamp).
Local Abbreviation QueryLogs :=
  (QueryLogs Time SafeParseTimestamp Ctx json_Unmarshal order_by_timestamp).
Local Abbreviation scan_row := (scan_row Time SafeParseTimestamp Ctx json_Unmarshal).
Local Abbreviation call := (call Time Format Ctx json_Marshal).
Local Abbreviation calls := (calls Time Format Ctx json_Marshal).
Local Abbreviation Call := (Call Time Ctx).

(** The rows a query reads when its arguments pass the checks. *)
Lemma QueryLogs_rows_select l lvl page limit :
  limit <= 1000 ->
  lvl = EmptyString \/ IsValidLogLevel lvl = true ->
  QueryLogs_rows l lvl page limit None
  = Ok (select_logs order_by_timestamp (logs l) lvl
          (if limit <? 1 then 10 else limit)
          (wrap64 (((if page <? 1 then 1 else page) - 1)
                   * (if limit <? 1 then 10 else limit)))).
Proof.
  intros Hlim Hlvl. unfold logger.QueryLogs_rows, query_args, utils.ValidatePageLimit.
  assert (Hbig : (1000 <? (if limit <? 1 then 10 else limit)) = false).
  { destruct (Z.ltb_spec limit 1); apply Z.ltb_ge; lia. }
  rewrite Hbig.
  assert (Hf : negb (lvl =? "")%string && negb (IsValidLogLevel lvl) = false).
  { destruct Hlvl as [-> | ->]; [reflexivity | apply andb_false_r]. }
  by rewrite Hf.
Qed.

Lemma engine_nil : engine_ok order_by_timestamp -> order_by_timestamp [] = [].
Proof. intros H. destruct (H []) as [Hp _]. by apply Permutation_nil, Permutation_sym. Qed.

Lemma where_level_unnormalized l lvl :
  levels_canonical l ->
  IsValidLogLevel lvl = true ->
  NormalizeLogLevel lvl <> lvl ->
  where_level lvl (logs l) = [].
Proof.
  intros Hcan Hv Hn. unfold where_level.
  destruct (String.eqb_spec lvl ""); [by apply valid_not_empty in Hv |].
  apply filter_none. apply List.Forall_forall. intros r Hr. apply String.eqb_neq. intros E.
  unfold levels_canonical in Hcan. rewrite List.Forall_forall in Hcan.
  apply Hcan in Hr. rewrite E in Hr. by apply AllLogLevels_upper in Hr.
Qed.

Lemma select_logs_nil tbl lvl limit offset :
  engine_ok order_by_timestamp ->
  where_level lvl tbl = [] ->
  select_logs order_by_timestamp tbl lvl limit offset = [].
Proof.
  intros Heng Hw. unfold select_logs. rewrite Hw, engine_nil by done.
  unfold sql_offset, sql_limit. rewrite skipn_nil.
  destruct (_ <? 0); [done |]. by rewrite firstn_nil.
Qed.

(** X16: on a store whose levels are all among the six, a filter that
    is valid but is not its own normalized form matches no row: the
    query succeeds and returns nothing. *)
Theorem QueryLogs_filter_is_compared_as_given (l : SQLiteLogger) (lvl : LogLevel)
    (page limit : Z) :
  engine_ok order_by_timestamp ->
  levels_canonical l ->
  limit <= 1000 ->
  IsValidLogLevel lvl = true ->
  NormalizeLogLevel lvl <> lvl ->
  QueryLogs l lvl page limit None = Ok [].
Proof.
  intros Heng Hcan Hlim Hv Hn.
  unfold logger.QueryLogs. rewrite QueryLogs_rows_select by auto.
  rewrite select_logs_nil; [done | done |].
  by apply where_level_unnormalized.
Qed.


(** X17: an entry that [Write] stores is found again: a query of the
    first page, with no filter or with the normalized level of the
    entry as filter, returns one entry more than the rows that matched
    before (when the page has room for it), among them the entry with
    its level normalized, its message, and its timestamp as
    [SafeParseTimestamp] reads the formatted text; a nil context comes
    back nil. *)
Theorem Write_then_QueryLogs_returns_the_entry (l : SQLiteLogger) (e : Entry)
    (flt : LogLevel) (page limit : Z) :
  engine_ok order_by_timestamp ->
  reaches_insert Time Ctx l e = true ->
  flt = EmptyString \/ flt = NormalizeLogLevel (Level _ _ e) ->
  page <= 1 ->
  limit <= 1000 ->
  Z.of_nat (length (where_level flt (logs l))) < (if limit <? 1 then 10 else limit) ->
  exists es,
    QueryLogs (fst (Write l e None)) flt page limit None = Ok es
    /\ length es = S (length (where_level flt (logs l)))
    /\ In (scan_row (row_of (seq l + 1) e)) es
    /\ Level _ _ (scan_row (row_of (seq l + 1) e)) = NormalizeLogLevel (Level _ _ e)
    /\ Message _ _ (scan_row (row_of (seq l + 1) e)) = Message _ _ e
    /\ Timestamp _ _ (scan_row (row_of (seq l + 1) e))
       = SafeParseTimestamp (Format (Timestamp _ _ e))
    /\ (Context_ _ _ e = None -> Context_ _ _ (scan_row (row_of (seq l + 1) e)) = None).
Proof.
  intros Heng Hacc Hflt Hpage Hlim Hroom.
  rewrite (Write_accepted _ _ _ _ _ _ Hacc). cbn [fst].
  pose proof (proj1 (reaches_insert_spec _ _ _ _) Hacc) as [Hin _].
  apply IsValidLogLevel_Normalize in Hin.
  unfold logger.QueryLogs. rewrite QueryLogs_rows_select; [| done |]; cycle 1.
  { destruct Hflt as [-> | ->]; [by left | by right]. }
  set (limit' := if limit <? 1 then 10 else limit) in *.
  assert (Hp1 : (if page <? 1 then 1 else page) = 1).
  { destruct (Z.ltb_spec page 1); lia. }
  rewrite Hp1. change ((1 - 1) * limit') with (0 * limit'). rewrite Z.mul_0_l.
  change (wrap64 0) with 0.
  set (row := row_of (seq l + 1) e).
  assert (Hw : where_level flt (logs l ++ [row]) = where_level flt (logs l) ++ [row]).
  { rewrite where_level_app. f_equal. unfold where_level.
    destruct (String.eqb_spec flt ""); [done |].
    destruct Hflt as [-> | ->]; [done |]. cbn. by rewrite String.eqb_refl. }
  unfold select_logs. cbn [logs set_logs]. rewrite Hw.
  destruct (Heng (where_level flt (logs l) ++ [row])) as [Hperm _].
  set (rows := order_by_timestamp (where_level flt (logs l) ++ [row])) in *.
  assert (Hlen : length rows = S (length (where_level flt (logs l)))).
  { rewrite (Permutation_length Hperm), length_app. cbn. lia. }
  assert (Hl1 : 1 <= limit') by (unfold limit'; destruct (Z.ltb_spec limit 1); lia).
  unfold sql_offset. change (Z.to_nat 0) with 0%nat. rewrite skipn_O.
  rewrite sql_limit_firstn by lia.
  rewrite firstn_all2 by lia.
  exists (map scan_row rows). split; [done |].
  split; [by rewrite length_map |].
  split.
  { apply in_map. apply (Permutation_in _ (Permutation_sym Hperm)).
    apply in_or_app. right. by left. }
  split; [done |]. split; [done |]. split; [done |].
  intros Hnil. unfold row, logger.row_of, logger.scan_row, MarshalContext.
  rewrite Hnil. reflexivity.
Qed.

(** X18: a page so far out that the 64-bit product for the offset
    wraps to a negative number is answered like page 1. *)
Theorem QueryLogs_wrapped_offset_reads_the_first_page (l : SQLiteLogger)
    (lvl : LogLevel) (page limit : Z) (query : option string) :
  wrap64 (((if page <? 1 then 1 else page) - 1) * (if limit <? 1 then 10 else limit)) < 0 ->
  QueryLogs l lvl page limit query = QueryLogs l lvl 1 limit query.
Proof.
  intros Hneg.
  unfold logger.QueryLogs, logger.QueryLogs_rows, query_args, utils.ValidatePageLimit.
  change (1 <? 1) with false. cbv iota.
  set (limit' := if limit <? 1 then 10 else limit) in *.
  set (page' := if page <? 1 then 1 else page) in *.
  destruct (1000 <? limit'); [done |].
  destruct (negb (lvl =? "")%string && negb (IsValidLogLevel lvl)); [done |].
  destruct query; [done |].
  unfold select_logs, sql_offset.
  change ((1 - 1) * limit') with (0 * limit'). rewrite Z.mul_0_l.
  change (wrap64 0) with 0.
  replace (Z.to_nat (wrap64 ((page' - 1) * limit'))) with 0%nat by lia. reflexivity.
Qed.

Lemma call_keeps l (c : Call) :
  store_ok l -> levels_canonical l ->
  store_ok (call l c)
  /\ levels_canonical (call l c)
  /\ seq l <= seq (call l c)
  /\ maxRows (call l c) = maxRows l
  /\ minLevel (call l c) = minLevel l
  /\ forall r, In r (logs (call l c)) -> In r (logs l) \/ seq l < id r.
Proof.
  intros Hok Hcan. destruct c as [e exec | exec]; cbn [logger.call].
  - split; [by apply Write_ok |].
    unfold logger.Write.
    destruct (IsValidLogLevel (NormalizeLogLevel (Level _ _ e))) eqn:Hv; cbn [negb].
    + destruct (LevelLessThan _ _); [cbn; repeat split; (done || lia || auto) |].
      destruct exec; [cbn; repeat split; (done || lia || auto) |].
      cbn. split; [| split; [lia | split; [done | split; [done |]]]].
      * unfold levels_canonical. cbn. apply List.Forall_app. split; [exact Hcan |].
        constructor; [| constructor]. cbn. by apply IsValidLogLevel_Normalize.
      * intros r Hr. apply in_app_or in Hr as [Hr | [<- | []]]; [by left | right; cbn; lia].
    + cbn. repeat split; (done || lia || auto).
  - split; [by apply cleanup_ok |].
    unfold logger.cleanup. destruct (maxRows l <=? 0); [cbn; repeat split; (done || lia || auto) |].
    destruct exec; [cbn; repeat split; (done || lia || auto) |].
    cbn. split; [| split; [lia | split; [done | split; [done |]]]].
    + unfold levels_canonical in *. cbn. rewrite List.Forall_forall in Hcan |- *.
      intros r Hr. apply Hcan. by apply filter_In in Hr as [? _].
    + intros r Hr. left. by apply filter_In in Hr as [? _].
Qed.

(** X19: from a store that satisfies the invariant and whose levels are
    among the six, whatever calls of [Write] and [cleanup] are made, and
    whatever the driver answers to each: the ids of the table ascend in
    insertion order and none exceeds the counter, every stored level is
    one of the six, the counter never decreases, and a row of the table
    is a row that was there before or has an id above the counter as it
    stood before: no id is given twice. *)
Theorem calls_keep_the_store_consistent (l : SQLiteLogger) (cs : list Call) :
  store_ok l ->
  levels_canonical l ->
  store_ok (calls l cs)
  /\ levels_canonical (calls l cs)
  /\ seq l <= seq (calls l cs)
  /\ maxRows (calls l cs) = maxRows l
  /\ minLevel (calls l cs) = minLevel l
  /\ forall r, In r (logs (calls l cs)) -> In r (logs l) \/ seq l < id r.
Proof.
  revert l. induction cs as [| c cs IH]; intros l Hok Hcan.
  - cbn. split; [done |]. split; [done |]. split; [lia |]. split; [done |].
    split; [done |]. intros r Hr. by left.
  - change (calls l (c :: cs)) with (calls (call l c) cs).
    destruct (call_keeps l c Hok Hcan) as (Hok1 & Hcan1 & Hs1 & Hm1 & Hl1 & Hr1).
    destruct (IH _ Hok1 Hcan1) as (Hok2 & Hcan2 & Hs2 & Hm2 & Hl2 & Hr2).
    split; [done |]. split; [done |]. split; [lia |].
    split; [congruence |]. split; [congruence |].
    intros r Hr. apply Hr2 in Hr as [Hr | Hr]; [by apply Hr1 | right; lia].
Qed.

(** X20: on a store whose ids ascend, a [cleanup] after a [cleanup]
    that succeeded changes nothing; with a positive [maxRows] the first
    leaves the smaller of the row count and [maxRows], and a table
    within [maxRows] is left as it is. *)
Theorem cleanup_twice_is_cleanup_once (l : SQLiteLogger) :
  store_ok l ->
  cleanup (fst (cleanup l None)) None = (fst (cleanup l None), None)
  /\ (0 < maxRows l ->
      Z.of_nat (length (logs (fst (cleanup l None))))
      = Z.min (Z.of_nat (length (logs l))) (maxRows l))
  /\ (Z.of_nat (length (logs l)) <= maxRows l -> logs (fst (cleanup l None)) = logs l).
Proof.
  intros Hok.
  destruct (Z.le_gt_cases (maxRows l) 0) as [Hz | Hpos].
  - assert (E : cleanup l None = (l, None)).
    { unfold cleanup. destruct (Z.leb_spec (maxRows l) 0); [done | lia]. }
    rewrite E. cbn [fst]. split; [exact E |]. split; [lia | done].
  - pose proof (cleanup_ok l None Hok) as Hok1.
    rewrite (cleanup_newest l Hok) in * by lia. cbn [fst] in *.
    set (k := (length (logs l) - Z.to_nat (maxRows l))%nat) in *.
    assert (Hlen : length (skipn k (logs l)) = (length (logs l) - k)%nat)
      by apply length_skipn.
    split; [| split].
    + rewrite (cleanup_newest _ Hok1) by (cbn; lia). cbn [logs set_logs maxRows seq].
      rewrite Hlen.
      replace (length (logs l) - k - Z.to_nat (maxRows l))%nat with 0%nat by lia.
      reflexivity.
    + intros _. cbn [logs set_logs]. rewrite Hlen. lia.
    + intros Hfit. cbn [logs set_logs]. replace k with 0%nat by lia. reflexivity.
Qed.

End StoreProps.

Lemma one_row_canonical : levels_canonical sample.one_row.
Proof.
  constructor; [| constructor]. apply list_elem_of_In. cbn. tauto.
Qed.

Lemma two_rows_ok : store_ok sample.two_rows.
Proof. split; cbn; repeat constructor; cbn; lia. Qed.

Lemma QueryLogs_filter_is_compared_as_given_witness :
  sample.QueryLogs sample.one_row "info" 1 10 None = Ok [].
Proof.
  apply (QueryLogs_filter_is_compared_as_given
           sample.Time sample.SafeParseTimestamp sample.Ctx sample.json_Unmarshal
           stable_order_by_timestamp sample.one_row "info" 1 10).
  - apply stable_engine_ok.
  - apply one_row_canonical.
  - lia.
  - vm_compute. reflexivity.
  - vm_compute. discriminate.
Defined.

Lemma Write_then_QueryLogs_returns_the_entry_witness :
  exists es,
    sample.QueryLogs (fst (sample.Write sample.one_row sample.disk_full None))
                     "WARN" 1 10 None = Ok es
    /\ length es = S (length (where_level "WARN" (logs sample.one_row)))
    /\ In (scan_row sample.Time sample.SafeParseTimestamp sample.Ctx sample.json_Unmarshal
             (row_of sample.Time sample.Format sample.Ctx sample.json_Marshal
                     (seq sample.one_row + 1) sample.disk_full)) es
    /\ Level _ _
         (scan_row sample.Time sample.SafeParseTimestamp sample.Ctx sample.json_Unmarshal
            (row_of sample.Time sample.Format sample.Ctx sample.json_Marshal
                    (seq sample.one_row + 1) sample.disk_full))
       = NormalizeLogLevel (Level _ _ sample.disk_full)
    /\ Message _ _
         (scan_row sample.Time sample.SafeParseTimestamp sample.Ctx sample.json_Unmarshal
            (row_of sample.Time sample.Format sample.Ctx sample.json_Marshal
                    (seq sample.one_row + 1) sample.disk_full))
       = Message _ _ sample.disk_full
    /\ Timestamp _ _
         (scan_row sample.Time sample.SafeParseTimestamp sample.Ctx sample.json_Unmarshal
            (row_of sample.Time sample.Format sample.Ctx sample.json_Marshal
                    (seq sample.one_row + 1) sample.disk_full))
       = sample.SafeParseTimestamp (sample.Format (Timestamp _ _ sample.disk_full))
    /\ (Context_ _ _ sample.disk_full = None ->
        Context_ _ _
          (scan_row sample.Time sample.SafeParseTimestamp sample.Ctx sample.json_Unmarshal
             (row_of sample.Time sample.Format sample.Ctx sample.json_Marshal
                     (seq sample.one_row + 1) sample.disk_full))
        = None).
Proof.
  apply (Write_then_QueryLogs_returns_the_entry
           sample.Time sample.Format sample.SafeParseTimestamp sample.Ctx
           sample.json_Marshal sample.json_Unmarshal stable_order_by_timestamp
           sample.one_row sample.disk_full "WARN" 1 10).
  - apply stable_engine_ok.
  - vm_compute. reflexivity.
  - right. reflexivity.
  - lia.
  - lia.
  - vm_compute. reflexivity.
Defined.

Lemma QueryLogs_wrapped_offset_reads_the_first_page_witness :
  sample.QueryLogs sample.one_row "INFO" 92233720368547760 100 None
  = sample.QueryLogs sample.one_row "INFO" 1 100 None.
Proof.
  apply (QueryLogs_wrapped_offset_reads_the_first_page
           sample.Time sample.SafeParseTimestamp sample.Ctx sample.json_Unmarshal
           stable_order_by_timestamp sample.one_row "INFO" 92233720368547760 100 None).
  vm_compute. reflexivity.
Defined.

Lemma calls_keep_the_store_consistent_witness :
  store_ok (calls sample.Time sample.Format sample.Ctx sample.json_Marshal
                  sample.two_rows sample.three_calls)
  /\ levels_canonical (calls sample.Time sample.Format sample.Ctx sample.json_Marshal
                             sample.two_rows sample.three_calls)
  /\ seq sample.two_rows
     <= seq (calls sample.Time sample.Format sample.Ctx sample.json_Marshal
                   sample.two_rows sample.three_calls)
  /\ maxRows (calls sample.Time sample.Format sample.Ctx sample.json_Marshal
                    sample.two_rows sample.three_calls)
     = maxRows sample.two_rows
  /\ minLevel (calls sample.Time sample.Format sample.Ctx sample.json_Marshal
                     sample.two_rows sample.three_calls)
     = minLevel sample.two_rows
  /\ forall r,
       In r (logs (calls sample.Time sample.Format sample.Ctx sample.json_Marshal
                         sample.two_rows sample.three_calls)) ->
       In r (logs sample.two_rows) \/ seq sample.two_rows < id r.
Proof.
  apply (calls_keep_the_store_consistent
           sample.Time sample.Format sample.Ctx sample.json_Marshal
           sample.two_rows sample.three_calls).
  - apply two_rows_ok.
  - constructor; [| constructor; [| constructor]]; apply list_elem_of_In; cbn; tauto.
Defined.

Lemma cleanup_twice_is_cleanup_once_witness :
  cleanup (fst (cleanup sample.two_rows None)) None
    = (fst (cleanup sample.two_rows None), None)
  /\ (0 < maxRows sample.two_rows ->
      Z.of_nat (length (logs (fst (cleanup sample.two_rows None))))
      = Z.min (Z.of_nat (length (logs sample.two_rows))) (maxRows sample.two_rows))
  /\ (Z.of_nat (length (logs sample.two_rows)) <= maxRows sample.two_rows ->
      logs (fst (cleanup sample.two_rows None)) = logs sample.two_rows).
Proof.
  apply (cleanup_twice_is_cleanup_once sample.two_rows). apply two_rows_ok.
Defined.

End logger_props.

(** ** The handler of GET /log *)

Module handler_props.
Import Go log_levels utils logger handler GoFacts log_levels_facts log_levels_props utils_props
       logger_facts logger_spec logger_props.

(** The page and the limit as [handleGetLogs] reads them are those of
    [ParseAndValidatePageLimit]. *)
Lemma handleGetLogs_unfold {Entry} (QueryLogs : string -> Z -> Z -> result (list Entry))
    q encode :
  handleGetLogs Entry QueryLogs q encode =
    match ParseAndValidatePageLimit (query_page q) (query_limit q) with
    | Err e => BadRequest e
    | Ok (page, limit) =>
        if negb (String.eqb (query_level q) EmptyString)
           && negb (IsValidLogLevel (query_level q))
        then BadRequest "invalid 'level' parameter"
        else
          match QueryLogs (query_level q) page limit with
          | Err _ => InternalServerError "failed to query logs"
          | Ok logs =>
              match encode with
              | Some _ => InternalServerError "failed to encode logs"
              | None => StatusOK logs
              end
          end
    end.
Proof.
  unfold handleGetLogs, ParseAndValidatePageLimit.
  destruct (String.eqb (query_page q) "").
  - destruct (String.eqb (query_limit q) ""); [done |].
    by destruct (strconv.Atoi (query_limit q)).
  - destruct (strconv.Atoi (query_page q)) as [p |]; [| done].
    destruct (p <=? 0); [done |].
    destruct (String.eqb (query_limit q) ""); [done |].
    by destruct (strconv.Atoi (query_limit q)).
Qed.

(** X21: on a request whose level parameter is an ASCII text,
    [handleGetLogs] refuses exactly when [ParseQueryParams] does; for
    a request both accept it queries the
    logger with the page and limit [ParseQueryParams] returns, a page of
    at least 1 and a limit between 1 and 100, but with the level as the
    client wrote it, where [ParseQueryParams] returns the normalized
    level. *)
Theorem handleGetLogs_checks_like_ParseQueryParams {Entry : Type}
    (QueryLogs : string -> Z -> Z -> result (list Entry)) (q : Query)
    (encode : option string) :
  is_ascii (query_level q) = true ->
  match ParseQueryParams q with
  | Err _ => exists msg, handleGetLogs Entry QueryLogs q encode = BadRequest msg
  | Ok qp =>
      LogLevel_ qp = NormalizeLogLevel (query_level q)
      /\ 1 <= Page qp /\ 1 <= Limit qp <= 100
      /\ handleGetLogs Entry QueryLogs q encode
         = match QueryLogs (query_level q) (Page qp) (Limit qp) with
           | Err _ => InternalServerError "failed to query logs"
           | Ok logs =>
               match encode with
               | Some _ => InternalServerError "failed to encode logs"
               | None => StatusOK logs
               end
           end
  end.
Proof.
  intros _. rewrite handleGetLogs_unfold. unfold ParseQueryParams.
  destruct (ParseAndValidatePageLimit _ _) as [[page limit] | e] eqn:Hp; [| eauto].
  apply ParseAndValidatePageLimit_range in Hp as (Hpage & Hlimit).
  unfold NormalizeLogLevel. rewrite IsValidLogLevel_ToUpper.
  destruct (negb (query_level q =? "")%string && negb (IsValidLogLevel (query_level q)));
    [eauto |].
  cbn. repeat split; (done || lia).
Qed.

Lemma handleGetLogs_checks_like_ParseQueryParams_witness :
  match ParseQueryParams (mkQuery "2" "500" "info") with
  | Err _ =>
      exists msg,
        handleGetLogs (LogEntry sample.Time sample.Ctx)
          (fun lvl page limit => sample.QueryLogs sample.one_row lvl page limit None)
          (mkQuery "2" "500" "info") None = BadRequest msg
  | Ok qp =>
      LogLevel_ qp = NormalizeLogLevel (query_level (mkQuery "2" "500" "info"))
      /\ 1 <= Page qp /\ 1 <= Limit qp <= 100
      /\ handleGetLogs (LogEntry sample.Time sample.Ctx)
           (fun lvl page limit => sample.QueryLogs sample.one_row lvl page limit None)
           (mkQuery "2" "500" "info") None
         = match sample.QueryLogs sample.one_row
                   (query_level (mkQuery "2" "500" "info")) (Page qp) (Limit qp) None with
           | Err _ => InternalServerError "failed to query logs"
           | Ok logs =>
               match @None string with
               | Some _ => InternalServerError "failed to encode logs"
               | None => StatusOK logs
               end
           end
  end.
Proof.
  apply (handleGetLogs_checks_like_ParseQueryParams
           (fun lvl page limit => sample.QueryLogs sample.one_row lvl page limit None)
           (mkQuery "2" "500" "info") None).
  reflexivity.
Defined.

Section HandlerOnStore.

Variable Time : Type.
Variable SafeParseTimestamp : string -> Time.
Variable Ctx : Type.
Variable json_Unmarshal : string -> result Ctx.
Variable order_by_timestamp : list Row -> list Row.

Local Abbreviation Entry := (LogEntry Time Ctx).
Local Abbreviation QueryLogs :=
  (QueryLogs Time SafeParseTimestamp Ctx json_Unmarshal order_by_timestamp).

(** X22: with the SQLite store as its logger, [handleGetLogs] answers
    500 only when the driver or the encoder fails: no request makes the
    checks of [QueryLogs] fail. *)
Theorem handleGetLogs_fails_only_with_the_driver (l : SQLiteLogger) (q : Query)
    (query encode : option string) (msg : string) :
  handleGetLogs Entry (fun lvl page limit => QueryLogs l lvl page limit query) q encode
    = InternalServerError msg ->
  is_Some query \/ is_Some encode.
Proof.
  rewrite handleGetLogs_unfold.
  destruct (ParseAndValidatePageLimit _ _) as [[page limit] | e] eqn:Hp; [| done].
  apply ParseAndValidatePageLimit_range in Hp as (Hpage & Hlimit).
  destruct (negb (query_level q =? "")%string && negb (IsValidLogLevel (query_level q)))
    eqn:Hlvl; [done |].
  destruct query as [err |]; [by left; eexists |].
  unfold logger.QueryLogs. rewrite QueryLogs_rows_select; [| lia |].
  - destruct encode; [by right; eexists | done].
  - apply andb_false_iff in Hlvl as [H | H].
    + left. apply negb_false_iff in H. by apply String.eqb_eq.
    + right. by apply negb_false_iff in H.
Qed.

(** X23: with the SQLite store as its logger and all stored levels
    among the six, a request whose level filter is valid but not in
    normalized form is answered, when nothing fails, with status 200
    and no entry (or refused for its page or limit). *)
Theorem handleGetLogs_unnormalized_filter_finds_nothing (l : SQLiteLogger) (q : Query) :
  engine_ok order_by_timestamp ->
  levels_canonical l ->
  IsValidLogLevel (query_level q) = true ->
  NormalizeLogLevel (query_level q) <> query_level q ->
  handleGetLogs Entry (fun lvl page limit => QueryLogs l lvl page limit None) q None
    = StatusOK []
  \/ exists msg,
       ParseAndValidatePageLimit (query_page q) (query_limit q) = Err msg
       /\ handleGetLogs Entry (fun lvl page limit => QueryLogs l lvl page limit None) q None
          = BadRequest msg.
Proof.
  intros Heng Hcan Hv Hn. rewrite handleGetLogs_unfold.
  destruct (ParseAndValidatePageLimit _ _) as [[page limit] | e] eqn:Hp; [| eauto].
  left.
  apply ParseAndValidatePageLimit_range in Hp as (Hpage & Hlimit).
  rewrite Hv, andb_false_r.
  unfold logger.QueryLogs. rewrite QueryLogs_rows_select by (auto || lia).
  rewrite select_logs_nil; [done | done |].
  by apply where_level_unnormalized.
Qed.

End HandlerOnStore.

Lemma handleGetLogs_fails_only_with_the_driver_witness :
  is_Some (Some "database is locked") \/ is_Some (@None string).
Proof.
  apply (handleGetLogs_fails_only_with_the_driver
           sample.Time sample.SafeParseTimestamp sample.Ctx sample.json_Unmarshal
           stable_order_by_timestamp sample.one_row (mkQuery "2" "20" "info")
           (Some "database is locked") None "failed to query logs").
  vm_compute. reflexivity.
Defined.

Lemma handleGetLogs_unnormalized_filter_finds_nothing_witness :
  handleGetLogs (LogEntry sample.Time sample.Ctx)
                (fun lvl page limit => sample.QueryLogs sample.one_row lvl page limit None)
                (mkQuery "2" "20" "info") None
    = StatusOK []
  \/ exists msg,
       ParseAndValidatePageLimit "2" "20" = Err msg
       /\ handleGetLogs (LogEntry sample.Time sample.Ctx)
                        (fun lvl page limit =>
                           sample.QueryLogs sample.one_row lvl page limit None)
                        (mkQuery "2" "20" "info") None
          = BadRequest msg.
Proof.
  apply (handleGetLogs_unnormalized_filter_finds_nothing
           sample.Time sample.SafeParseTimestamp sample.Ctx sample.json_Unmarshal
           stable_order_by_timestamp sample.one_row (mkQuery "2" "20" "info")).
  - apply stable_engine_ok.
  - constructor; [| constructor]. apply list_elem_of_In. cbn. tauto.
  - vm_compute. reflexivity.
  - vm_compute. discriminate.
Defined.

End handler_props.

(** ** Validation of an entry *)

Module model_props.
Import Go log_levels logger model go_strings GoFacts log_levels_facts log_levels_props
       logger_spec.

Section ModelProps.

Variable Time : Type.
Variable Format : Time -> string.
Variable Ctx : Type.
Variable json_Marshal : Ctx -> result string.
Variable len_keys : Ctx -> Z.

Local Abbreviation Entry := (LogEntry Time Ctx).
Local Abbreviation Validate := (Validate Time Ctx json_Marshal len_keys).
Local Abbreviation Write := (Write Time Format Ctx json_Marshal).
Local Abbreviation row_of := (row_of Time Format Ctx json_Marshal).

(** X24: an entry of ASCII message and level that [Validate] accepts
    has a message that is not
    blank and not longer than 1024 bytes, and leaves the call with its
    level normalized to one of the six and everything else as it was;
    validating it again changes nothing; and [Write] never refuses it:
    the only error [Write] can return for it is the driver's, and the
    row it inserts carries the level of the entry. *)
Theorem Validate_gives_an_entry_Write_accepts (e e' : Entry) :
  is_ascii (Message _ _ e) = true ->
  is_ascii (Level _ _ e) = true ->
  Validate e = Ok e' ->
  Level _ _ e' = NormalizeLogLevel (Level _ _ e)
  /\ Level _ _ e' ∈ AllLogLevels
  /\ Message _ _ e' = Message _ _ e
  /\ Timestamp _ _ e' = Timestamp _ _ e
  /\ Context_ _ _ e' = Context_ _ _ e
  /\ TrimSpace (Message _ _ e') <> EmptyString
  /\ Z.of_nat (String.length (Message _ _ e')) <= 1024
  /\ Validate e' = Ok e'
  /\ forall l exec,
       snd (Write l e' exec) = (if reaches_insert Time Ctx l e' then exec else None)
       /\ level (row_of (seq l + 1) e') = Level _ _ e'.
Proof.
  unfold model.Validate. intros _ _ H.
  destruct (String.eqb_spec (TrimSpace (Message _ _ e)) "") as [| Hmsg]; [done |].
  destruct (Z.ltb_spec MaxMessageLength (Z.of_nat (String.length (Message _ _ e))))
    as [| Hlen]; [done |].
  destruct (check_context Ctx json_Marshal len_keys (Context_ _ _ e)) eqn:Hctx; [done |].
  destruct (String.eqb_spec (Level _ _ e) "") as [| Hlvl]; [done |].
  destruct (IsValidLogLevel (NormalizeLogLevel (Level _ _ e))) eqn:Hv; [| done].
  cbn [negb] in H. injection H as <-. cbn [Level Message Timestamp Context_].
  pose proof (proj1 (IsValidLogLevel_Normalize _) Hv) as Hin.
  assert (Hup : NormalizeLogLevel (NormalizeLogLevel (Level _ _ e))
                = NormalizeLogLevel (Level _ _ e)) by apply ToUpper_idem.
  split; [done |]. split; [done |]. split; [done |]. split; [done |]. split; [done |].
  split; [done |]. split; [exact Hlen |].
  split.
  - destruct (String.eqb_spec (TrimSpace (Message _ _ e)) ""); [done |].
    destruct (Z.ltb_spec MaxMessageLength (Z.of_nat (String.length (Message _ _ e))));
      [unfold MaxMessageLength in *; lia |].
    rewrite Hctx.
    destruct (String.eqb_spec (NormalizeLogLevel (Level _ _ e)) "") as [E |].
    { rewrite E in Hv. discriminate. }
    by rewrite Hup, Hv.
  - intros l exec. split; [| unfold logger.row_of; cbn [level Level]; apply Hup].
    unfold logger.Write, reaches_insert. cbn [Level]. rewrite Hup, Hv. cbn [negb andb].
    destruct (LevelLessThan _ _); cbn [negb]; [done |]. by destruct exec.
Qed.

End ModelProps.

Lemma Validate_gives_an_entry_Write_accepts_witness :
  Level _ _ (sample.entry "WARN" " disk full " "2025-08-06T14:13:00Z")
    = NormalizeLogLevel (Level _ _ sample.disk_full)
  /\ Level _ _ (sample.entry "WARN" " disk full " "2025-08-06T14:13:00Z") ∈ AllLogLevels
  /\ Message _ _ (sample.entry "WARN" " disk full " "2025-08-06T14:13:00Z")
     = Message _ _ sample.disk_full
  /\ Timestamp _ _ (sample.entry "WARN" " disk full " "2025-08-06T14:13:00Z")
     = Timestamp _ _ sample.disk_full
  /\ Context_ _ _ (sample.entry "WARN" " disk full " "2025-08-06T14:13:00Z")
     = Context_ _ _ sample.disk_full
  /\ TrimSpace (Message _ _ (sample.entry "WARN" " disk full " "2025-08-06T14:13:00Z"))
     <> EmptyString
  /\ Z.of_nat (String.length
                 (Message _ _ (sample.entry "WARN" " disk full " "2025-08-06T14:13:00Z")))
     <= 1024
  /\ sample.Validate (sample.entry "WARN" " disk full " "2025-08-06T14:13:00Z")
     = Ok (sample.entry "WARN" " disk full " "2025-08-06T14:13:00Z")
  /\ forall l exec,
       snd (sample.Write l (sample.entry "WARN" " disk full " "2025-08-06T14:13:00Z") exec)
       = (if reaches_insert sample.Time sample.Ctx l
                            (sample.entry "WARN" " disk full " "2025-08-06T14:13:00Z")
          then exec else None)
       /\ level (row_of sample.Time sample.Format sample.Ctx sample.json_Marshal
                        (seq l + 1)
                        (sample.entry "WARN" " disk full " "2025-08-06T14:13:00Z"))
          = Level _ _ (sample.entry "WARN" " disk full " "2025-08-06T14:13:00Z").
Proof.
  apply (Validate_gives_an_entry_Write_accepts
           sample.Time sample.Format sample.Ctx sample.json_Marshal sample.len_keys
           sample.disk_full
           (sample.entry "WARN" " disk full " "2025-08-06T14:13:00Z"));
    vm_compute; reflexivity.
Defined.

End model_props.

(** ** The API key *)

Module middleware_props.
Import Go log_levels utils go_strings middleware.

Lemma TrimLeft_cases s :
  TrimLeft s = EmptyString
  \/ exists ch t, TrimLeft s = String ch t /\ isSpace ch = false.
Proof.
  induction s as [| ch s IH]; cbn; [by left |].
  destruct (isSpace ch) eqn:E; [exact IH | right; eauto].
Qed.

Lemma TrimRight_head ch t :
  isSpace ch = false -> exists t', TrimRight (String ch t) = String ch t'.
Proof. intros E. cbn. rewrite E. destruct (TrimRight t); eauto. Qed.

Lemma TrimRight_idem t : TrimRight (TrimRight t) = TrimRight t.
Proof.
  induction t as [| ch t IH]; cbn; [done |].
  destruct (TrimRight t) as [| d u] eqn:E.
  - destruct (isSpace ch) eqn:Es; cbn; [done | by rewrite Es].
  - cbn [TrimRight] in IH |- *. by rewrite IH.
Qed.

Lemma TrimSpace_idem s : TrimSpace (TrimSpace s) = TrimSpace s.
Proof.
  unfold TrimSpace. destruct (TrimLeft_cases s) as [-> | (ch & t & -> & E)]; [done |].
  destruct (TrimRight_head ch t E) as [t' Ht]. rewrite Ht.
  cbn [TrimLeft]. rewrite E, <- Ht. apply TrimRight_idem.
Qed.

(** X25: for a configured key of ASCII text, some [X-API-Key] header of
    ASCII text passes [verifyAPIKey] exactly when the configured key is
    not empty and has no white space around it; a missing header never
    passes. *)
Theorem verifyAPIKey_needs_a_trimmed_key (validKey : string) :
  is_ascii validKey = true ->
  ((exists hdr, is_ascii hdr = true /\ verifyAPIKey (Some hdr) validKey = true)
   <-> validKey <> EmptyString /\ TrimSpace validKey = validKey)
  /\ verifyAPIKey None validKey = false.
Proof.
  intros Hascii. split; [| reflexivity]. unfold verifyAPIKey, GetAPIKey. split.
  - intros (hdr & _ & H). apply andb_true_iff in H as [Hne Heq].
    apply String.eqb_eq in Heq. rewrite <- Heq. split.
    + intros E. rewrite E in Hne. discriminate.
    + apply TrimSpace_idem.
  - intros [Hne Ht]. exists validKey. split; [exact Hascii |].
    change (default EmptyString (Some validKey)) with validKey. rewrite Ht.
    rewrite String.eqb_refl, andb_true_r. apply negb_true_iff.
    by apply String.eqb_neq.
Qed.

Lemma verifyAPIKey_needs_a_trimmed_key_witness :
  ((exists hdr, is_ascii hdr = true /\ verifyAPIKey (Some hdr) " s3cret" = true)
   <-> " s3cret" <> EmptyString /\ TrimSpace " s3cret" = " s3cret")
  /\ verifyAPIKey None " s3cret" = false.
Proof.
  apply (verifyAPIKey_needs_a_trimmed_key " s3cret"). reflexivity.
Defined.

End middleware_props.